(** * appdaemon-testing: the simulated clock, scheduler and state store of
      [appdaemon_testing/hass_driver.py]

    A shallow embedding of [HassDriver] and of the records it owns
    ([Scheduler], [StateSpy]), followed by the properties of the
    time-travel algorithm, of [set_state]/[get_state] and of the wrappers the
    driver installs on the AppDaemon API. *)

From Stdlib Require Import ZArith List Bool String Ascii Lia Permutation Sorted.
Import ListNotations.

Local Open Scope string_scope.
Local Open Scope list_scope.
Local Open Scope Z_scope.

(** ** Python values and dictionaries *)

(** The values an entity attribute, a filter or a keyword argument holds. *)
Inductive pyval : Type :=
| PNone
| PBool (b : bool)
| PInt (z : Z)
| PStr (s : string).

(** Python truth value, as used by [or] and [not]. *)
Definition truthy (v : pyval) : bool :=
  match v with
  | PNone => false
  | PBool b => b
  | PInt z => negb (z =? 0)
  | PStr s => negb (s =? "")%string
  end.

Definition int_of_bool (b : bool) : Z := if b then 1 else 0.

(** Python [==]: [bool] is a subclass of [int], everything else compares
    within its own type. *)
Definition py_eq (a b : pyval) : bool :=
  match a, b with
  | PNone, PNone => true
  | PBool x, PBool y => Bool.eqb x y
  | PBool x, PInt y => int_of_bool x =? y
  | PInt x, PBool y => x =? int_of_bool y
  | PInt x, PInt y => x =? y
  | PStr x, PStr y => (x =? y)%string
  | _, _ => false
  end.

(** [a or b] *)
Definition py_or (a b : pyval) : pyval := if truthy a then a else b.

(** A [dict] keyed by [K], in insertion order. *)
Definition dict (K V : Type) : Type := list (K * V).

Section Dict.
Context {K V : Type} (eqb : K -> K -> bool).

Fixpoint dict_get (d : dict K V) (k : K) : option V :=
  match d with
  | [] => None
  | (k', v) :: rest => if eqb k' k then Some v else dict_get rest k
  end.

(** [d[k] = v]: an existing key keeps its place, a new one goes last. *)
Fixpoint dict_set (d : dict K V) (k : K) (v : V) : dict K V :=
  match d with
  | [] => [(k, v)]
  | (k', v') :: rest =>
      if eqb k' k then (k', v) :: rest else (k', v') :: dict_set rest k v
  end.

(** [defaultdict.__getitem__]: a missing key is first bound to the default. *)
Definition dict_touch (dflt : V) (d : dict K V) (k : K) : dict K V :=
  match dict_get d k with
  | Some _ => d
  | None => dict_set d k dflt
  end.

Definition dict_get_default (dflt : V) (d : dict K V) (k : K) : V :=
  match dict_get d k with
  | Some v => v
  | None => dflt
  end.

(** [a | b] *)
Definition dict_union (a b : dict K V) : dict K V :=
  fold_left (fun acc kv => dict_set acc (fst kv) (snd kv)) b a.
End Dict.

Definition sdict (V : Type) : Type := dict string V.
Definition sget {V} := @dict_get string V String.eqb.
Definition sset {V} := @dict_set string V String.eqb.

Definition map_values {A B} (f : A -> B) (d : sdict A) : sdict B :=
  map (fun kv => (fst kv, f (snd kv))) d.

(** ** Strings: [str.split(".")] and ["." in s] *)

Definition dot : ascii := "."%char.

(** [split_on sep s] is [s.split(sep)] for a one-character separator. *)
Fixpoint split_on (sep : ascii) (s : string) : list string :=
  match s with
  | EmptyString => [EmptyString]
  | String c rest =>
      if Ascii.eqb c sep then EmptyString :: split_on sep rest
      else match split_on sep rest with
           | [] => [String c EmptyString]
           | hd :: tl => String c hd :: tl
           end
  end.

(** [sep in s] *)
Fixpoint contains (sep : ascii) (s : string) : bool :=
  match s with
  | EmptyString => false
  | String c rest => Ascii.eqb c sep || contains sep rest
  end.

(** ** Instants *)

(** A [datetime] is counted in microseconds from a fixed origin, a
    [timedelta] in microseconds; the bounds of [datetime] (years 1 to 9999)
    are left out. *)
Definition instant : Type := Z.

Definition timedelta (seconds : Z) : Z := seconds * 1000000.

Definition microseconds_per_day : Z := 86400 * 1000000.

(** [datetime.date()] and [datetime.time()]: the day and the time of day. *)
Definition date_of (t : instant) : Z := t / microseconds_per_day.
Definition time_of (t : instant) : Z := t mod microseconds_per_day.

(** ** Records *)

(** A callable is an opaque reference. *)
Inductive callable : Type := Callable (id : nat).

Definition callable_eqb (a b : callable) : bool :=
  match a, b with Callable x, Callable y => Nat.eqb x y end.

Definition kwargs_t : Type := sdict pyval.

Record StateSpy : Type := mkStateSpy {
  spy_callback : callable;
  spy_attribute : string;
  spy_new : option pyval;
  spy_old : option pyval;
  spy_kwargs : kwargs_t
}.

Record Scheduler : Type := mkScheduler {
  start : instant;
  frequency_sec : Z;
  callback : callable;
  kwargs : kwargs_t;
  run_count : Z;
  last_run : instant;
  is_canceled : bool
}.

(** [Scheduler(start, frequency_sec, callback, kwargs)], with
    [__post_init__]. *)
Definition new_Scheduler (start_ : instant) (freq : Z) (cb : callable)
  (kw : kwargs_t) : Scheduler :=
  {| start := start_; frequency_sec := freq; callback := cb; kwargs := kw;
     run_count := 0; last_run := start_; is_canceled := false |}.

Definition fired (s : Scheduler) : Scheduler :=
  {| start := start s; frequency_sec := frequency_sec s;
     callback := callback s; kwargs := kwargs s;
     run_count := run_count s + 1; last_run := last_run s;
     is_canceled := is_canceled s |}.

Definition with_last_run (t : instant) (s : Scheduler) : Scheduler :=
  {| start := start s; frequency_sec := frequency_sec s;
     callback := callback s; kwargs := kwargs s;
     run_count := run_count s; last_run := t;
     is_canceled := is_canceled s |}.

Definition cancel (s : Scheduler) : Scheduler :=
  {| start := start s; frequency_sec := frequency_sec s;
     callback := callback s; kwargs := kwargs s;
     run_count := run_count s; last_run := last_run s;
     is_canceled := true |}.

(** ** [time_travel_to]: collecting what is due *)

(** An element of [callbacks_due]. *)
Definition due_t : Type := instant * callable * kwargs_t.

Definition fire_instant (x : due_t) : instant := fst (fst x).

(** The [while next_ <= new_datetime] loop of a repeating schedule.  Each
    turn adds the period to [next_], so [fuel] turns are enough when [fuel]
    exceeds the number of periods between [next_] and [new_datetime]
    (see [run_every_loop_fuel]). *)
Fixpoint run_every_loop (fuel : nat) (now new_datetime next_ : instant)
  (s : Scheduler) (callbacks_due : list due_t) : Scheduler * list due_t :=
  match fuel with
  | O => (s, callbacks_due)
  | S fuel' =>
      if next_ <=? new_datetime then
        let '(s1, due1) :=
          if next_ >=? now then
            (with_last_run (last_run s + timedelta (frequency_sec s)) (fired s),
             callbacks_due ++ [(next_, callback s, kwargs s)])
          else (s, callbacks_due) in
        run_every_loop fuel' now new_datetime
          (next_ + timedelta (frequency_sec s)) s1 due1
      else (s, callbacks_due)
  end.

(** Turns that cover every period between [next_] and [new_datetime]. *)
Definition loop_fuel (new_datetime next_ : instant) (freq : Z) : nat :=
  S (Z.to_nat ((new_datetime - next_) / timedelta freq + 1)).

(** The body of [for s in self._schedulers.values()]. *)
Definition visit_scheduler (now new_datetime : instant) (s : Scheduler)
  (callbacks_due : list due_t) : Scheduler * list due_t :=
  if (frequency_sec s <? 1) &&
     (is_canceled s
      || (start s <? now)
      || (start s >? new_datetime)
      || ((start s =? now) && (run_count s >? 0)))
  then (s, callbacks_due)
  else if frequency_sec s <? 1 then
    (fired s, callbacks_due ++ [(start s, callback s, kwargs s)])
  else
    run_every_loop (loop_fuel new_datetime (last_run s) (frequency_sec s))
      now new_datetime (last_run s) s callbacks_due.

Definition handle : Type := string.

(** The whole first loop: the records are updated in place, in the order of
    the dictionary, and [callbacks_due] grows. *)
Fixpoint collect_due (now new_datetime : instant)
  (schedulers : sdict Scheduler) (callbacks_due : list due_t)
  : sdict Scheduler * list due_t :=
  match schedulers with
  | [] => ([], callbacks_due)
  | (h, s) :: rest =>
      let '(s', due1) := visit_scheduler now new_datetime s callbacks_due in
      let '(rest', due2) := collect_due now new_datetime rest due1 in
      ((h, s') :: rest', due2)
  end.

(** [sorted(callbacks_due, key=lambda x: x[0])]: Python's sort is stable;
    here as an insertion sort that keeps equal keys in their first order. *)
Fixpoint insert_due (x : due_t) (l : list due_t) : list due_t :=
  match l with
  | [] => [x]
  | y :: l' =>
      if fire_instant x <=? fire_instant y then x :: y :: l'
      else y :: insert_due x l'
  end.

Fixpoint sorted (l : list due_t) : list due_t :=
  match l with
  | [] => []
  | x :: l' => insert_due x (sorted l')
  end.

(** ** The driver *)

(** What [get_state] hands out for one entity: a single attribute value, or
    the whole attribute mapping when the attribute is ["all"]. *)
Inductive pyobj : Type :=
| Val (v : pyval)
| Attrs (a : sdict pyval).

Inductive get_result : Type :=
| One (o : pyobj)
| Many (m : sdict pyobj).

Definition option_string_eqb (a b : option string) : bool :=
  match a, b with
  | None, None => true
  | Some x, Some y => String.eqb x y
  | _, _ => false
  end.

(** The fields of [HassDriver].  Of [_mocks] the record keeps what the
    mocks were built with: the [return_value] of [listen_event], [time],
    [datetime] and [date]; the side effects are the functions below. *)
Record HassDriver : Type := mkHassDriver {
  _base_datetime : instant;
  _current_datetime : instant;
  _setup_active : bool;
  listen_event_return_value : string;
  time_return_value : Z;
  datetime_return_value : instant;
  date_return_value : Z;
  update_states : bool;
  _states : sdict (sdict pyval);
  _state_spys : dict (option string) (list StateSpy);
  _schedulers : sdict Scheduler
}.

Definition simulation_time (d : HassDriver) : instant := _current_datetime d.

Definition set_current_datetime (t : instant) (d : HassDriver) : HassDriver :=
  mkHassDriver (_base_datetime d) t (_setup_active d)
    (listen_event_return_value d) (time_return_value d)
    (datetime_return_value d) (date_return_value d) (update_states d)
    (_states d) (_state_spys d) (_schedulers d).

Definition set_setup_active (b : bool) (d : HassDriver) : HassDriver :=
  mkHassDriver (_base_datetime d) (_current_datetime d) b
    (listen_event_return_value d) (time_return_value d)
    (datetime_return_value d) (date_return_value d) (update_states d)
    (_states d) (_state_spys d) (_schedulers d).

Definition set_states (st : sdict (sdict pyval)) (d : HassDriver)
  : HassDriver :=
  mkHassDriver (_base_datetime d) (_current_datetime d) (_setup_active d)
    (listen_event_return_value d) (time_return_value d)
    (datetime_return_value d) (date_return_value d) (update_states d)
    st (_state_spys d) (_schedulers d).

Definition set_state_spys (sp : dict (option string) (list StateSpy))
  (d : HassDriver) : HassDriver :=
  mkHassDriver (_base_datetime d) (_current_datetime d) (_setup_active d)
    (listen_event_return_value d) (time_return_value d)
    (datetime_return_value d) (date_return_value d) (update_states d)
    (_states d) sp (_schedulers d).

Definition set_schedulers (sc : sdict Scheduler) (d : HassDriver)
  : HassDriver :=
  mkHassDriver (_base_datetime d) (_current_datetime d) (_setup_active d)
    (listen_event_return_value d) (time_return_value d)
    (datetime_return_value d) (date_return_value d) (update_states d)
    (_states d) (_state_spys d) sc.

(** The default of [_states]: [{"state": None}]. *)
Definition default_entry : sdict pyval := [("state", PNone)].

(** [self._states[entity]] *)
Definition state_entry (d : HassDriver) (entity : string) : sdict pyval :=
  dict_get_default String.eqb default_entry (_states d) entity.

(** [entry.get(attribute)] *)
Definition attr_get (entry : sdict pyval) (attribute : string) : pyval :=
  dict_get_default String.eqb PNone entry attribute.

Inductive exn : Type :=
| ValueError
| KeyError
| Raised (name : string).

(** A call the driver makes on a callable it was given: a timer callback,
    [callback( **kwargs)], or a state listener,
    [callback(entity, attribute, old, new, kwargs)]. *)
Inductive call : Type :=
| CallTimer (cb : callable) (kw : kwargs_t)
| CallSpy (cb : callable) (entity : string) (attribute : option string)
    (old new : pyobj) (kw : kwargs_t).

(** Everything outside the driver object lives in a world [W]: the state
    of the application under test and of its callbacks, the system's clock
    and its randomness. *)
Definition machine (W : Type) : Type := (W * HassDriver)%type.

(** A run ends with a value or a raised exception, in the state reached by
    then, after the listed calls on callables. *)
Record Res (W A : Type) : Type := mkRes {
  outcome : exn + A;
  final : machine W;
  calls : list call
}.
Arguments mkRes {W A}.
Arguments outcome {W A}.
Arguments final {W A}.
Arguments calls {W A}.

Definition M (W A : Type) : Type := machine W -> Res W A.

Definition ret {W A} (a : A) : M W A := fun m => mkRes (inr a) m [].

Definition raise {W A} (e : exn) : M W A := fun m => mkRes (inl e) m [].

Definition bind {W A B} (c : M W A) (k : A -> M W B) : M W B :=
  fun m =>
    let r := c m in
    match outcome r with
    | inl e => mkRes (inl e) (final r) (calls r)
    | inr a =>
        let r' := k a (final r) in
        mkRes (outcome r') (final r') (calls r ++ calls r')
    end.

Notation "x <- c ;; k" := (bind c (fun x => k))
  (at level 61, c at next level, right associativity).
Notation "c ;; k" := (bind c (fun _ => k))
  (at level 61, right associativity).

Definition get_driver {W} : M W HassDriver :=
  fun m => mkRes (inr (snd m)) m [].

Definition modify_driver {W} (f : HassDriver -> HassDriver) : M W unit :=
  fun m => mkRes (inr tt) (fst m, f (snd m)) [].

Fixpoint for_each {W A} (l : list A) (body : A -> M W unit) : M W unit :=
  match l with
  | [] => ret tt
  | x :: l' => body x ;; for_each l' body
  end.

Section Driver.

Context {W : Type}.

Local Abbreviation M := (M W).
Local Abbreviation machine := (machine W).

(** How the callables behave: any function of the whole state, which may
    raise, use the driver again and make calls of its own. *)
Variable handler : call -> M unit.

(** [uuid.uuid4()] and [datetime.now()]. *)
Variable uuid4_draw : W -> string * W.
Variable datetime_now : W -> instant.

Definition invoke (c : call) : M unit :=
  fun m => let r := handler c m in mkRes (outcome r) (final r) (c :: calls r).

Definition uuid4 : M string :=
  fun m => let '(u, w) := uuid4_draw (fst m) in mkRes (inr u) (w, snd m) [].

(** [HassDriver(update_states, base_date)] *)
Definition HassDriver_init (update_states_ : bool)
  (base_date : option instant) (w : W) : machine :=
  let base := match base_date with
              | Some b => b
              | None => datetime_now w
              end in
  let '(u, w') := uuid4_draw w in
  (w', {| _base_datetime := base;
          _current_datetime := base;
          _setup_active := false;
          listen_event_return_value := u;
          time_return_value := time_of base;
          datetime_return_value := base;
          date_return_value := date_of base;
          update_states := update_states_;
          _states := [];
          _state_spys := [];
          _schedulers := [] |}).

(** The mocks [time], [datetime] and [date] hand out their
    [return_value]. *)
Definition mock_time : M Z := d <- get_driver ;; ret (time_return_value d).
Definition mock_datetime : M instant :=
  d <- get_driver ;; ret (datetime_return_value d).
Definition mock_date : M Z := d <- get_driver ;; ret (date_return_value d).

Definition to_call (x : due_t) : call := CallTimer (snd (fst x)) (snd x).

Definition time_travel_to (new_datetime : instant) : M unit :=
  d <- get_driver ;;
  if new_datetime =? simulation_time d then ret tt
  else if new_datetime <? simulation_time d then raise ValueError
  else
    let '(schedulers, callbacks_due) :=
      collect_due (simulation_time d) new_datetime (_schedulers d) [] in
    modify_driver (set_schedulers schedulers) ;;
    for_each (sorted callbacks_due) (fun x => invoke (to_call x)) ;;
    modify_driver (set_current_datetime new_datetime).

(** [setup]: the generator runs up to its [yield] on entry; on exit it
    is resumed when the block ended normally, and the block's exception
    is thrown into it at the [yield] otherwise.  The [yield] is not
    inside a [try], so a thrown exception leaves the generator at once. *)
Definition setup_before_yield : M unit := modify_driver (set_setup_active true).
Definition setup_after_yield : M unit := modify_driver (set_setup_active false).

Definition setup_exit (raised : option exn) : M unit :=
  match raised with
  | None => setup_after_yield
  | Some e => raise e
  end.

(** [with self.setup(): block] *)
Definition with_setup {A} (block : M A) : M A :=
  setup_before_yield ;;
  fun m =>
    let r := block m in
    match outcome r with
    | inr a =>
        let r' := setup_exit None (final r) in
        mkRes (match outcome r' with inl e => inl e | inr _ => inr a end)
          (final r') (calls r ++ calls r')
    | inl e =>
        let r' := setup_exit (Some e) (final r) in
        mkRes (match outcome r' with inl e' => inl e' | inr _ => inl e end)
          (final r') (calls r ++ calls r')
    end.

(** [self._states[entity]] on the [defaultdict]: binds a missing entity
    to the default entry. *)
Definition touch_state (entity : string) : M unit :=
  modify_driver (fun d =>
    set_states (dict_touch String.eqb default_entry (_states d) entity) d).

(** [self._state_spys[key]] on the [defaultdict]. *)
Definition touch_spys (key : option string) : M (list StateSpy) :=
  modify_driver (fun d =>
    set_state_spys (dict_touch option_string_eqb [] (_state_spys d) key) d) ;;
  d <- get_driver ;;
  ret (dict_get_default option_string_eqb [] (_state_spys d) key).

(** [state_entry[attribute_name] = new_value] *)
Definition store_attr (entity attribute_name : string) (new_value : pyval)
  : M unit :=
  modify_driver (fun d =>
    set_states
      (sset (_states d) entity
         (sset (state_entry d entity) attribute_name new_value)) d).

Definition filter_ok (f : option pyval) (v : pyval) : bool :=
  match f with
  | None => true
  | Some x => py_eq x v
  end.

(** The body of [for spy in ...] in [set_state]. *)
Definition notify (entity attribute_name : string)
  (prev_state : sdict pyval) (old_value new_value : pyval)
  (kwargs_ : kwargs_t) (spy : StateSpy) : M unit :=
  d <- get_driver ;;
  let all := (spy_attribute spy =? "all")%string in
  let sat_attr := (spy_attribute spy =? attribute_name)%string || all in
  let sat_new := filter_ok (spy_new spy) new_value in
  let sat_old := filter_ok (spy_old spy) old_value in
  let param_old := if all then Attrs prev_state else Val old_value in
  let param_new :=
    if all then Attrs (state_entry d entity) else Val new_value in
  let param_attribute := if all then None else Some attribute_name in
  if sat_old && sat_new && sat_attr then
    invoke (CallSpy (spy_callback spy) entity param_attribute param_old
              param_new (dict_union String.eqb (spy_kwargs spy) kwargs_))
  else ret tt.

(** [set_state(entity, state, attribute_name=..., previous=...,
    trigger=..., **kwargs)]; [previous] and [trigger] are [None] when
    the caller leaves them out. *)
Definition set_state (entity : string) (state : pyval)
  (attribute_name : string) (previous : pyval) (trigger : option bool)
  (kwargs_ : kwargs_t) : M unit :=
  d0 <- get_driver ;;
  let trigger := match trigger with
                 | None => negb (_setup_active d0)
                 | Some t => t
                 end in
  match split_on dot entity with
  | [domain; _] =>
      touch_state entity ;;
      d <- get_driver ;;
      let prev_state := state_entry d entity in
      let old_value := py_or previous (attr_get prev_state attribute_name) in
      let new_value := state in
      if py_eq old_value new_value then ret tt
      else
        store_attr entity attribute_name new_value ;;
        if negb trigger then ret tt
        else
          by_domain <- touch_spys (Some domain) ;;
          by_entity <- touch_spys (Some entity) ;;
          for_each (by_domain ++ by_entity)
            (notify entity attribute_name prev_state old_value new_value
               kwargs_)
  | _ => raise ValueError
  end.

(** The decorator: the wrapped function runs only when [update_states]
    is set, and [inner] has no [return]. *)
Definition possible_side_effects_state_change {A} (fn : M A)
  : M (option A) :=
  d <- get_driver ;;
  if update_states d then fn ;; ret None else ret None.

(** The call [self.set_state(entity_id, state, **kwargs)] of [turn_off]
    and [turn_on]: Python binds the forwarded keywords to the parameters
    of [set_state].  A keyword [entity] or [state] collides with a
    positional argument, a [TypeError]; [attribute_name], [previous] and
    [trigger] become the keyword-only parameters of those names, which
    keep their defaults when the keyword is missing; what is left is the
    [**kwargs] of [set_state].  [trigger] counts by its truth value, and
    [trigger=None] is the default. *)
Definition set_state_parameter (name : string) : bool :=
  ((name =? "attribute_name") || (name =? "previous") || (name =? "trigger"))%string.

Definition keyword_previous (kwargs_ : kwargs_t) : pyval :=
  match sget kwargs_ "previous" with
  | Some v => v
  | None => PNone
  end.

Definition keyword_trigger (kwargs_ : kwargs_t) : option bool :=
  match sget kwargs_ "trigger" with
  | None | Some PNone => None
  | Some v => Some (truthy v)
  end.

Definition keyword_rest (kwargs_ : kwargs_t) : kwargs_t :=
  filter (fun kv => negb (set_state_parameter (fst kv))) kwargs_.

(** Attribute names are strings, in the store and in the records of the
    listeners ([attribute: Optional[str]]); an [attribute_name] of another
    type has no counterpart here. *)
Definition keyword_attribute_name (kwargs_ : kwargs_t) : option string :=
  match sget kwargs_ "attribute_name" with
  | None => Some "state"
  | Some (PStr a) => Some a
  | Some _ => None
  end.

Definition set_state_forwarded (entity_id : string) (state : pyval)
  (kwargs_ : kwargs_t) : M unit :=
  match sget kwargs_ "entity", sget kwargs_ "state" with
  | None, None =>
      match keyword_attribute_name kwargs_ with
      | Some attribute_name =>
          set_state entity_id state attribute_name
            (keyword_previous kwargs_) (keyword_trigger kwargs_)
            (keyword_rest kwargs_)
      | None => raise (Raised "attribute_name is not a str")
      end
  | _, _ => raise (Raised "TypeError")
  end.

(** [turn_off(entity_id, **kwargs)] and [turn_on(entity_id, **kwargs)] *)
Definition _se_turn_off (entity_id : string) (kwargs_ : kwargs_t)
  : M (option unit) :=
  possible_side_effects_state_change
    (set_state_forwarded entity_id (PStr "off") kwargs_).

Definition _se_turn_on (entity_id : string) (kwargs_ : kwargs_t)
  : M (option unit) :=
  possible_side_effects_state_change
    (set_state_forwarded entity_id (PStr "on") kwargs_).

Definition _set_scheduler (start_ : instant) (frequency_sec_ : Z)
  (callback_ : callable) (kwargs_ : kwargs_t) : M handle :=
  h <- uuid4 ;;
  modify_driver (fun d =>
    set_schedulers
      (sset (_schedulers d) h
         (new_Scheduler start_ frequency_sec_ callback_ kwargs_)) d) ;;
  ret h.

Definition _se_run_at (callback_ : callable) (start_ : instant)
  (kwargs_ : kwargs_t) : M (option handle) :=
  possible_side_effects_state_change
    (_set_scheduler start_ 0 callback_ kwargs_).

Definition _se_run_daily (callback_ : callable) (start_ : instant)
  (kwargs_ : kwargs_t) : M (option handle) :=
  possible_side_effects_state_change
    (_set_scheduler start_ (60 * 60 * 24) callback_ kwargs_).

Definition _se_run_hourly (callback_ : callable) (start_ : instant)
  (kwargs_ : kwargs_t) : M (option handle) :=
  possible_side_effects_state_change
    (_set_scheduler start_ (60 * 60) callback_ kwargs_).

Definition _se_run_minutely (callback_ : callable) (start_ : instant)
  (kwargs_ : kwargs_t) : M (option handle) :=
  possible_side_effects_state_change
    (_set_scheduler start_ 60 callback_ kwargs_).

Definition _se_run_every (callback_ : callable) (start_ : instant)
  (interval : Z) (kwargs_ : kwargs_t) : M (option handle) :=
  possible_side_effects_state_change
    (_set_scheduler start_ interval callback_ kwargs_).

Definition _se_run_in (callback_ : callable) (delay : Z)
  (kwargs_ : kwargs_t) : M (option handle) :=
  possible_side_effects_state_change
    (d <- get_driver ;;
     _set_scheduler (_current_datetime d + timedelta delay) 0 callback_
       kwargs_).

(** [cancel_timer(handle)]; the argument is whatever a registration
    returned, [None] included, and only strings are keys. *)
Definition _se_cancel_timer (h : option handle) : M unit :=
  d <- get_driver ;;
  match h with
  | None => raise KeyError
  | Some h' =>
      match sget (_schedulers d) h' with
      | None => raise KeyError
      | Some s =>
          modify_driver (set_schedulers (sset (_schedulers d) h' (cancel s)))
      end
  end.

(** The [for s_eid, state in self._states.items()] loop of
    [get_state]. *)
Fixpoint match_domain (entity_id : string) (states : sdict (sdict pyval))
  (matched_states : sdict (sdict pyval)) : exn + sdict (sdict pyval) :=
  match states with
  | [] => inr matched_states
  | (s_eid, state) :: rest =>
      match split_on dot s_eid with
      | [domain; _] =>
          match_domain entity_id rest
            (if (domain =? entity_id)%string
             then sset matched_states s_eid state
             else matched_states)
      | _ => inl ValueError
      end
  end.

Definition obj_truthy (o : pyobj) : bool :=
  match o with
  | Val v => truthy v
  | Attrs [] => false
  | Attrs (_ :: _) => true
  end.

(** [get_state(entity_id, attribute, default)] *)
Definition _se_get_state (entity_id attribute : string) (default : pyval)
  : M get_result :=
  let fully_qualified := contains dot entity_id in
  matched_states <-
    (if fully_qualified then
       touch_state entity_id ;;
       d <- get_driver ;;
       ret (sset [] entity_id (state_entry d entity_id))
     else
       d <- get_driver ;;
       match match_domain entity_id (_states d) [] with
       | inl e => raise e
       | inr m => ret m
       end) ;;
  let mapped :=
    if negb (attribute =? "all")%string
    then map_values (fun st => Val (attr_get st attribute)) matched_states
    else map_values Attrs matched_states in
  let defaulted :=
    match default with
    | PNone => mapped
    | _ => map_values (fun o => if obj_truthy o then o else Val default)
             mapped
    end in
  if fully_qualified then
    match sget defaulted entity_id with
    | Some o => ret (One o)
    | None => raise KeyError
    end
  else ret (Many defaulted).

(** [listen_state(callback, entity, attribute, new, old, **kwargs)] *)
Definition _se_listen_state (callback_ : callable) (entity : option string)
  (attribute : option string) (new old : option pyval)
  (kwargs_ : kwargs_t) : M string :=
  let spy := {| spy_callback := callback_;
                spy_attribute :=
                  match attribute with
                  | None => "state"
                  | Some a => if (a =? "")%string then "state" else a
                  end;
                spy_new := new;
                spy_old := old;
                spy_kwargs := kwargs_ |} in
  spys <- touch_spys entity ;;
  modify_driver (fun d =>
    set_state_spys
      (dict_set option_string_eqb (_state_spys d) entity (spys ++ [spy]))
      d) ;;
  uuid4.

(** A sequence of advances. *)
Fixpoint travel (path : list instant) : M unit :=
  match path with
  | [] => ret tt
  | t :: rest => time_travel_to t ;; travel rest
  end.

End Driver.

(** ** The fixture of the test suite *)

Module Fixture.

(** The world of the tests: [my_value], the counter the test callbacks
    increment, and the number of identifiers drawn so far. *)
Record world : Type := mkWorld { my_value : nat; drawn : nat }.

(** [my_callback]: [my_value += 1], for timers and listeners alike. *)
Definition my_callback (c : call) : M world unit :=
  fun m =>
    mkRes (inr tt)
      ({| my_value := S (my_value (fst m)); drawn := drawn (fst m) |},
       snd m) [].

(** A generator of identifiers: ["a"], ["b"], ["c"], ... in turn. *)
Definition uuid4_draw (w : world) : string * world :=
  (String (ascii_of_nat (97 + drawn w)) EmptyString,
   {| my_value := my_value w; drawn := S (drawn w) |}).

(** [BASE_DATE], 12:00, counted from midnight of its day, and the
    instant [minutes] later. *)
Definition BASE_DATE : instant := timedelta (12 * 3600).
Definition at_minute (minutes : Z) : instant :=
  BASE_DATE + timedelta (60 * minutes).
Definition at_second (seconds : Z) : instant :=
  BASE_DATE + timedelta seconds.

(** [freeze_time(BASE_DATE)] *)
Definition datetime_now (w : world) : instant := BASE_DATE.

Definition fresh : world := {| my_value := 0; drawn := 0 |}.

(** [hass_driver()] *)
Definition hass_driver : machine world :=
  HassDriver_init uuid4_draw datetime_now true None fresh.

Definition cb : callable := Callable 0.

(** Runs [c] on [m] and goes on from the state it ends in. *)
Definition after {A} (c : M world A) (m : machine world) : machine world :=
  final (c m).

(** [run_every(my_callback, start, interval)] and
    [run_at(my_callback, start)] on the fresh driver. *)
Definition with_run_every (start_ : instant) (interval : Z)
  : machine world :=
  after (_se_run_every uuid4_draw cb start_ interval []) hass_driver.

Definition with_run_at (start_ : instant) : machine world :=
  after (_se_run_at uuid4_draw cb start_ []) hass_driver.

(** [test_should_call_multiple_timers_of_different_kinds]: a one-shot
    at 12:10, then a schedule every five minutes from 12:05. *)
Definition cb1 : callable := Callable 1.
Definition cb2 : callable := Callable 2.

Definition two_timers : machine world :=
  after (_se_run_every uuid4_draw cb2 (at_minute 5) 300 [])
    (after (_se_run_at uuid4_draw cb1 (at_minute 10) []) hass_driver).

(** A callback that keeps a journal in [my_value]: every call appends
    the number of the callable as one more decimal digit. *)
Definition journal_callback (c : call) : M world unit :=
  fun m =>
    let id := match c with
              | CallTimer (Callable id) _ => id
              | CallSpy (Callable id) _ _ _ _ _ => id
              end in
    mkRes (inr tt)
      ({| my_value := 10 * my_value (fst m) + id; drawn := drawn (fst m) |},
       snd m) [].

(** A listener of the state of [light.x], registered on the fresh
    driver. *)
Definition with_listener : machine world :=
  after (_se_listen_state uuid4_draw cb (Some "light.x") None None None [])
    hass_driver.

(** ... and [light.x] switched on after that. *)
Definition light_on : machine world :=
  after (set_state my_callback "light.x" (PStr "on") "state" PNone None [])
    with_listener.

(** A block that fails during the baseline setup: the entity identifier
    lacks its domain. *)
Definition failing_block : M world unit :=
  set_state my_callback "lightx" (PStr "off") "state" PNone None [].

(** [HassDriver(update_states=False)] *)
Definition passive_driver : machine world :=
  HassDriver_init uuid4_draw datetime_now false None fresh.

(** The handle of the first schedule registered on the fresh driver. *)
Definition first_handle : handle := "b".

End Fixture.

(** ** Vocabulary of the properties *)

(** A callable that returns normally and makes no call of its own. *)
Definition quiet {W} (handler : call -> M W unit) : Prop :=
  forall c m, outcome (handler c m) = inr tt /\ calls (handler c m) = [].

(** A quiet callable that leaves the driver as it found it. *)
Definition benign {W} (handler : call -> M W unit) : Prop :=
  forall c m,
    outcome (handler c m) = inr tt /\
    snd (final (handler c m)) = snd m /\
    calls (handler c m) = [].

Definition at_instant (t : instant) (x : due_t) : bool := fire_instant x =? t.

Definition not_later (a b : due_t) : Prop := fire_instant a <= fire_instant b.

(** The targets of a journey never go back in time. *)
Fixpoint nondecreasing_from (c : instant) (path : list instant) : Prop :=
  match path with
  | [] => True
  | t :: rest => c <= t /\ nondecreasing_from t rest
  end.

(** The record after [n] more runs of a repeating schedule. *)
Definition ran (n : Z) (s : Scheduler) : Scheduler :=
  {| start := start s; frequency_sec := frequency_sec s;
     callback := callback s; kwargs := kwargs s;
     run_count := run_count s + n;
     last_run := last_run s + n * timedelta (frequency_sec s);
     is_canceled := is_canceled s |}.

(** The instants [t], [t + p], ... ([n] of them), as entries for the
    callable [cb]. *)
Fixpoint due_run (n : nat) (t p : Z) (cb : callable) (kw : kwargs_t)
  : list due_t :=
  match n with
  | O => []
  | S n' => (t, cb, kw) :: due_run n' (t + p) p cb kw
  end.

(** How many of the listed calls went to the timer callback [cb]. *)
Definition timer_calls_to (cb : callable) (l : list call) : nat :=
  List.length (filter (fun c => match c with
                           | CallTimer cb' _ => callable_eqb cb' cb
                           | CallSpy _ _ _ _ _ _ => false
                           end) l).

Definition has_callback (cb : callable) (hs : string * Scheduler) : bool :=
  callable_eqb (callback (snd hs)) cb.

(** A repeating record of anchor [anchor] and period [p] that ran [rc]
    times has kept up with the clock [c] of a journey begun at [c0]: every
    instant of its run up to [c] is behind it and the next one is ahead. *)
Definition kept_up (anchor p c0 c rc : Z) : Prop :=
  0 <= rc /\
  (0 < rc -> anchor + (rc - 1) * p <= c) /\
  (c < anchor + rc * p \/ (rc = 0 /\ c = c0)).

(** What one visit of the first loop makes of a record, and what it adds
    to [callbacks_due]. *)
Definition advanced (now new_datetime : instant) (s : Scheduler) : Scheduler :=
  fst (visit_scheduler now new_datetime s []).

Definition fires (now new_datetime : instant) (s : Scheduler) : list due_t :=
  snd (visit_scheduler now new_datetime s []).

Definition all_fires (now new_datetime : instant)
  (schedulers : sdict Scheduler) : list due_t :=
  flat_map (fun hs => fires now new_datetime (snd hs)) schedulers.

(** The second loop of [time_travel_to]. *)
Definition fire_all {W} (handler : call -> M W unit) (order : list due_t)
  : M W unit :=
  for_each order (fun x => invoke handler (to_call x)).

(** The calls [cs] made one after the other, each on the state the one
    before left; a call that raises ends the run.  The journal of calls
    lists each call before the calls that it makes itself. *)
Fixpoint handled {W} (handler : call -> M W unit) (cs : list call)
  (m : machine W) : Res W unit :=
  match cs with
  | [] => mkRes (inr tt) m []
  | c :: rest =>
      let r := handler c m in
      match outcome r with
      | inl e => mkRes (inl e) (final r) (c :: calls r)
      | inr _ =>
          let r' := handled handler rest (final r) in
          mkRes (outcome r') (final r') ((c :: calls r) ++ calls r')
      end
  end.

(** The call [callback( **kwargs)] of a collected entry. *)
Definition call_of (x : due_t) : call :=
  let '(_, callback, kwargs) := x in CallTimer callback kwargs.

(** Two drivers that differ at most in what their clock shows. *)
Definition same_but_clock (d d' : HassDriver) : Prop :=
  _base_datetime d' = _base_datetime d /\
  _setup_active d' = _setup_active d /\
  listen_event_return_value d' = listen_event_return_value d /\
  time_return_value d' = time_return_value d /\
  datetime_return_value d' = datetime_return_value d /\
  date_return_value d' = date_return_value d /\
  update_states d' = update_states d /\
  _states d' = _states d /\
  _state_spys d' = _state_spys d /\
  _schedulers d' = _schedulers d.

(** An entry lies in the closed interval of an advance. *)
Definition within (now new_datetime : instant) (x : due_t) : Prop :=
  now <= fire_instant x <= new_datetime.

(** Two records are the same schedule: they differ at most in their run
    count and in [last_run]. *)
Definition same_schedule (s s' : Scheduler) : Prop :=
  start s' = start s /\
  frequency_sec s' = frequency_sec s /\
  callback s' = callback s /\
  kwargs s' = kwargs s /\
  is_canceled s' = is_canceled s.

(** A record that no advance from [c] on will touch or fire. *)
Definition spent_from (c : instant) (s : Scheduler) : Prop :=
  forall now T,
    c <= now -> now <= T ->
    visit_scheduler now T s [] = (s, []).

(** The listeners registered under [key], an entity or a domain. *)
Definition spies_of (d : HassDriver) (key : string) : list StateSpy :=
  dict_get_default option_string_eqb [] (_state_spys d) (Some key).

(** The three filters of a listener, as [set_state] tests them. *)
Definition spy_matches (attribute_name : string) (old_value new_value : pyval)
  (spy : StateSpy) : bool :=
  filter_ok (spy_old spy) old_value
  && filter_ok (spy_new spy) new_value
  && ((spy_attribute spy =? attribute_name)%string
      || (spy_attribute spy =? "all")%string).

(** The call [set_state] makes on a listener that matches: the attribute
    with its old and new value, or for a listener of ["all"] the entity's
    mapping before and after. *)
Definition spy_call (entity attribute_name : string)
  (prev_state new_state : sdict pyval) (old_value new_value : pyval)
  (kw : kwargs_t) (spy : StateSpy) : call :=
  if (spy_attribute spy =? "all")%string
  then CallSpy (spy_callback spy) entity None (Attrs prev_state)
         (Attrs new_state) (dict_union String.eqb (spy_kwargs spy) kw)
  else CallSpy (spy_callback spy) entity (Some attribute_name)
         (Val old_value) (Val new_value)
         (dict_union String.eqb (spy_kwargs spy) kw).

(** The store after [state_entry[attribute_name] = new_value] on the
    entry of [entity]. *)
Definition stored (entity attribute_name : string) (new_value : pyval)
  (d : HassDriver) : sdict (sdict pyval) :=
  sset (dict_touch String.eqb default_entry (_states d) entity) entity
    (sset (state_entry d entity) attribute_name new_value).

(** The listeners after the two reads [self._state_spys[domain]] and
    [self._state_spys[entity]]. *)
Definition spys_read (domain entity : string) (d : HassDriver)
  : dict (option string) (list StateSpy) :=
  dict_touch option_string_eqb []
    (dict_touch option_string_eqb [] (_state_spys d) (Some domain))
    (Some entity).

(** The number of fires of a repeating schedule of anchor [anchor] and
    period [p] on a journey from [c0] that ends at [c]. *)
Definition runs_until (anchor p c0 c : Z) : Z :=
  if (anchor <=? c) && (c0 <? c) then (c - anchor) / p + 1 else 0.

(** [value or default] when a default is given, as [get_state] applies
    it. *)
Definition or_default (default v : pyval) : pyval :=
  match default with
  | PNone => v
  | _ => if truthy v then v else default
  end.

(** The run [r] from [m] has drawn one identifier and stored the record
    [s] under it, and has done nothing else. *)
Definition registers {W A} (uuid4_draw : W -> string * W) (s : Scheduler)
  (m : machine W) (r : Res W A) : Prop :=
  final r
  = (snd (uuid4_draw (fst m)),
     set_schedulers
       (sset (_schedulers (snd m)) (fst (uuid4_draw (fst m))) s) (snd m)) /\
  calls r = [] /\
  sget (_schedulers (snd (final r))) (fst (uuid4_draw (fst m))) = Some s /\
  forall k, k <> fst (uuid4_draw (fst m)) ->
            sget (_schedulers (snd (final r))) k
            = sget (_schedulers (snd m)) k.

(** The record [listen_state] appends. *)
Definition listener (cb : callable) (attribute : option string)
  (new old : option pyval) (kw : kwargs_t) : StateSpy :=
  {| spy_callback := cb;
     spy_attribute :=
       match attribute with
       | None => "state"
       | Some a => if (a =? "")%string then "state" else a
       end;
     spy_new := new;
     spy_old := old;
     spy_kwargs := kw |}.

(** The identifier [eid] has two parts and the first is [domain]. *)
Definition in_domain (domain eid : string) : bool :=
  match split_on dot eid with
  | [d; _] => (d =? domain)%string
  | _ => false
  end.

(** The identifier has the form [domain.object_id]. *)
Definition two_parts (eid : string) : Prop :=
  exists d o, split_on dot eid = [d; o].

(** * Properties *)

(** ** The order of [sorted] *)

Lemma insert_due_perm : forall x l, Permutation (insert_due x l) (x :: l).
Proof.
  intros x l; induction l as [|y l IH]; simpl; [reflexivity|].
  destruct (fire_instant x <=? fire_instant y); [reflexivity|].
  rewrite IH. apply perm_swap.
Qed.

Lemma sorted_perm : forall l, Permutation (sorted l) l.
Proof.
  induction l as [|x l IH]; simpl; [constructor|].
  rewrite insert_due_perm. now constructor.
Qed.

Lemma insert_due_sorted :
  forall x l, StronglySorted not_later l -> StronglySorted not_later (insert_due x l).
Proof.
  intros x l; induction 1 as [|y l Hl IH Hy]; simpl.
  - repeat constructor.
  - destruct (Z.leb_spec (fire_instant x) (fire_instant y)) as [Hxy|Hxy].
    + constructor; [now constructor|].
      constructor; [exact Hxy|].
      eapply Forall_impl; [|exact Hy].
      unfold not_later; intros; lia.
    + constructor; [exact IH|].
      eapply Permutation_Forall; [symmetry; apply insert_due_perm|].
      constructor; [unfold not_later; lia | exact Hy].
Qed.

Lemma sorted_is_sorted : forall l, StronglySorted not_later (sorted l).
Proof.
  induction l as [|x l IH]; simpl; [constructor|].
  now apply insert_due_sorted.
Qed.

Lemma insert_due_at :
  forall t x l,
    filter (at_instant t) (insert_due x l) = filter (at_instant t) (x :: l).
Proof.
  intros t x l; induction l as [|y l IH]; [reflexivity|].
  cbn [insert_due].
  destruct (Z.leb_spec (fire_instant x) (fire_instant y)) as [Hxy|Hxy];
    [reflexivity|].
  cbn [filter] in *. rewrite IH. unfold at_instant.
  destruct (Z.eqb_spec (fire_instant x) t), (Z.eqb_spec (fire_instant y) t);
    try reflexivity; lia.
Qed.

Lemma sorted_stable :
  forall t l, filter (at_instant t) (sorted l) = filter (at_instant t) l.
Proof.
  intros t; induction l as [|x l IH]; [reflexivity|].
  cbn [sorted]. rewrite insert_due_at. cbn [filter]. now rewrite IH.
Qed.

(** ** Running the due callbacks *)

Section Advance.

Context {W : Type} (handler : call -> M W unit).

Lemma bind_ok :
  forall A B (c : M W A) (k : A -> M W B) m a,
    outcome (c m) = inr a ->
    bind c k m
    = mkRes (outcome (k a (final (c m)))) (final (k a (final (c m))))
        (calls (c m) ++ calls (k a (final (c m)))).
Proof. intros A B c k m a H; unfold bind; now rewrite H. Qed.

Lemma bind_raised :
  forall A B (c : M W A) (k : A -> M W B) m e,
    outcome (c m) = inl e ->
    bind c k m = mkRes (inl e) (final (c m)) (calls (c m)).
Proof. intros A B c k m e H; unfold bind; now rewrite H. Qed.

Lemma bind_get_driver :
  forall A (k : HassDriver -> M W A) m,
    bind get_driver k m = k (snd m) m.
Proof.
  intros A k m. unfold bind, get_driver. cbn [outcome final calls app].
  destruct (k (snd m) m); reflexivity.
Qed.

Lemma bind_modify_driver :
  forall A f (k : unit -> M W A) m,
    bind (modify_driver f) k m = k tt (fst m, f (snd m)).
Proof.
  intros A f k m. unfold bind, modify_driver. cbn [outcome final calls app].
  destruct (k tt (fst m, f (snd m))); reflexivity.
Qed.

Lemma bind_ret :
  forall A B (a : A) (k : A -> M W B) m, bind (ret a) k m = k a m.
Proof.
  intros A B a k m. unfold bind, ret. cbn [outcome final calls app].
  destruct (k a m); reflexivity.
Qed.

Lemma fire_all_cons :
  forall x order m,
    outcome (handler (to_call x) m) = inr tt ->
    fire_all handler (x :: order) m
    = let r := fire_all handler order (final (handler (to_call x) m)) in
      mkRes (outcome r) (final r)
        ((to_call x :: calls (handler (to_call x) m)) ++ calls r).
Proof.
  intros x order m H. unfold fire_all at 1. cbn [for_each].
  erewrite bind_ok by (unfold invoke; cbn [outcome]; exact H).
  reflexivity.
Qed.

Lemma fire_all_quiet :
  quiet handler ->
  forall order m,
    outcome (fire_all handler order m) = inr tt /\
    calls (fire_all handler order m) = map to_call order.
Proof.
  intros Hq; induction order as [|x order IH]; intros m.
  - split; reflexivity.
  - destruct (Hq (to_call x) m) as [Ho Hc].
    rewrite fire_all_cons by exact Ho. cbn [outcome calls].
    destruct (IH (final (handler (to_call x) m))) as [Ho' Hc'].
    rewrite Ho', Hc', Hc. split; reflexivity.
Qed.

Lemma fire_all_benign :
  benign handler ->
  forall order m, snd (final (fire_all handler order m)) = snd m.
Proof.
  intros Hb; induction order as [|x order IH]; intros m; [reflexivity|].
  destruct (Hb (to_call x) m) as (Ho & Hd & _).
  rewrite fire_all_cons by exact Ho. cbn [final].
  now rewrite IH, Hd.
Qed.

Lemma benign_quiet : benign handler -> quiet handler.
Proof. intros Hb c m; destruct (Hb c m) as (? & _ & ?); now split. Qed.

(** What one real advance does, in terms of [fire_all]. *)
Lemma time_travel_to_unfold :
  forall T m,
    simulation_time (snd m) < T ->
    time_travel_to handler T m =
    bind (fire_all handler (sorted (snd (collect_due (simulation_time (snd m)) T
                                   (_schedulers (snd m)) []))))
      (fun _ => modify_driver (set_current_datetime T))
      (fst m,
       set_schedulers
         (fst (collect_due (simulation_time (snd m)) T
                 (_schedulers (snd m)) [])) (snd m)).
Proof.
  intros T [w d] Hlt. cbn [fst snd] in *.
  unfold time_travel_to. rewrite bind_get_driver. cbn [snd].
  destruct (Z.eqb_spec T (simulation_time d)) as [->|_]; [lia|].
  destruct (Z.ltb_spec T (simulation_time d)) as [?|_]; [lia|].
  destruct (collect_due (simulation_time d) T (_schedulers d) [])
    as [schedulers callbacks_due].
  rewrite bind_modify_driver. reflexivity.
Qed.

Lemma fire_all_handled :
  forall order m,
    fire_all handler order m = handled handler (map call_of order) m.
Proof.
  induction order as [|[[t callback] kwargs] order IH]; intros m;
    [reflexivity|].
  unfold fire_all in *. cbn [for_each map handled call_of].
  unfold bind at 1, invoke at 1, to_call at 1.
  cbn [outcome final calls fst snd].
  destruct (outcome (handler (CallTimer callback kwargs) m));
    [reflexivity|].
  now rewrite IH.
Qed.

(** C1.  An advance to a later instant [T] fires what it collected in
    the order of a stable sort by fire instant: the order is a
    permutation of the collected entries, ascending, and keeps the entries
    of one instant in the order of their discovery.  Each entry's callback
    is called with the entry's keywords, in that order, each on the state
    the one before left, the first on the state the collection left, in
    which the clock still shows the old instant and the records are the
    updated ones.  When all of them have returned, the advance returns
    with the clock at [T] and everything else as the last callback left
    it; when one raises, the advance raises the same, the later callbacks
    are not called and the clock is not set. *)
Theorem time_travel_to_fires_in_stable_order :
  forall (T : instant) (m : machine W),
    simulation_time (snd m) < T ->
    let d := snd m in
    let found := collect_due (_current_datetime d) T (_schedulers d) [] in
    let order := sorted (snd found) in
    let before :=
      (fst m,
       {| _base_datetime := _base_datetime d;
          _current_datetime := _current_datetime d;
          _setup_active := _setup_active d;
          listen_event_return_value := listen_event_return_value d;
          time_return_value := time_return_value d;
          datetime_return_value := datetime_return_value d;
          date_return_value := date_return_value d;
          update_states := update_states d;
          _states := _states d;
          _state_spys := _state_spys d;
          _schedulers := fst found |}) in
    let fire := handled handler (map call_of order) before in
    let advance := time_travel_to handler T m in
    Permutation order (snd found) /\
    StronglySorted not_later order /\
    (forall t, filter (at_instant t) order
               = filter (at_instant t) (snd found)) /\
    calls advance = calls fire /\
    match outcome fire with
    | inr _ =>
        outcome advance = inr tt /\
        fst (final advance) = fst (final fire) /\
        _current_datetime (snd (final advance)) = T /\
        same_but_clock (snd (final fire)) (snd (final advance))
    | inl e => outcome advance = inl e /\ final advance = final fire
    end /\
    (quiet handler -> calls advance = map call_of order).
Proof.
  intros T m Hlt d found order before fire advance.
  assert (Hadv : advance
                 = bind (fire_all handler order)
                     (fun _ => modify_driver (set_current_datetime T))
                     before)
    by (apply time_travel_to_unfold; exact Hlt).
  assert (Hfire : fire_all handler order before = fire)
    by apply fire_all_handled.
  assert (Hcalls : calls advance = calls fire).
  { rewrite Hadv. unfold bind. rewrite Hfire.
    destruct (outcome fire); cbn [calls]; [reflexivity|].
    unfold modify_driver; cbn [calls]. apply app_nil_r. }
  split; [apply sorted_perm|].
  split; [apply sorted_is_sorted|].
  split; [intros t; apply sorted_stable|].
  split; [exact Hcalls|].
  split.
  - rewrite Hadv. unfold bind. rewrite Hfire.
    destruct (outcome fire); cbn [outcome final]; [split; reflexivity|].
    unfold modify_driver, set_current_datetime, same_but_clock.
    cbn [outcome final fst snd _base_datetime _current_datetime
         _setup_active listen_event_return_value time_return_value
         datetime_return_value date_return_value update_states _states
         _state_spys _schedulers].
    repeat split.
  - intros Hq. rewrite Hcalls. unfold fire. rewrite <- fire_all_handled.
    replace (map call_of order) with (map to_call order)
      by (apply map_ext; intros [[t callback] kwargs]; reflexivity).
    apply fire_all_quiet; exact Hq.
Qed.

End Advance.

(** ** The loop of a repeating schedule *)

Lemma timedelta_pos : forall f, 1 <= f -> 0 < timedelta f.
Proof. intros f Hf; unfold timedelta; lia. Qed.

(** The number of turns: the first instant of the run past
    [new_datetime] is [next_ + n * p]. *)
Lemma turns_spec :
  forall new_datetime next_ p,
    0 < p ->
    let n := Z.of_nat (Z.to_nat ((new_datetime - next_) / p + 1)) in
    new_datetime < next_ + n * p /\
    (0 < n -> next_ + (n - 1) * p <= new_datetime).
Proof.
  intros new_datetime next_ p Hp n.
  pose proof (Z.div_mod (new_datetime - next_) p ltac:(lia)) as Hdm.
  pose proof (Z.mod_pos_bound (new_datetime - next_) p Hp) as Hmod.
  destruct (Z.le_gt_cases 0 ((new_datetime - next_) / p + 1)) as [Hq|Hq].
  - assert (n = (new_datetime - next_) / p + 1) as -> by (unfold n; lia).
    split; [nia|intros _; nia].
  - assert (n = 0) as -> by (unfold n; lia). split; [nia|lia].
Qed.

Lemma run_every_loop_acc :
  forall fuel now new_datetime next_ s due,
    run_every_loop fuel now new_datetime next_ s due
    = (fst (run_every_loop fuel now new_datetime next_ s []),
       due ++ snd (run_every_loop fuel now new_datetime next_ s [])).
Proof.
  induction fuel as [|fuel IH]; intros now new_datetime next_ s due.
  - cbn. now rewrite app_nil_r.
  - cbn [run_every_loop].
    destruct (next_ <=? new_datetime); [|cbn; now rewrite app_nil_r].
    destruct (next_ >=? now).
    + rewrite IH. rewrite (IH _ _ _ _ ([] ++ _)). cbn [fst snd].
      now rewrite <- !app_assoc.
    + apply IH.
Qed.

(** More fuel than the number of turns changes nothing: the loop has left
    through its condition. *)
Lemma run_every_loop_enough :
  forall n fuel fuel' now new_datetime next_ s due,
    0 < timedelta (frequency_sec s) ->
    new_datetime < next_ + Z.of_nat n * timedelta (frequency_sec s) ->
    (n < fuel)%nat -> (n < fuel')%nat ->
    run_every_loop fuel now new_datetime next_ s due
    = run_every_loop fuel' now new_datetime next_ s due.
Proof.
  induction n as [|n IH]; intros fuel fuel' now new_datetime next_ s due Hp Hn Hf Hf';
    destruct fuel as [|fuel]; try lia; destruct fuel' as [|fuel']; try lia;
    cbn [run_every_loop];
    destruct (Z.leb_spec next_ new_datetime) as [Hle|Hgt]; try reflexivity.
  - lia.
  - destruct (next_ >=? now); apply IH; cbn [frequency_sec with_last_run fired];
      try assumption; lia.
Qed.

Lemma run_every_loop_fuel :
  forall fuel now new_datetime next_ s due,
    1 <= frequency_sec s ->
    (loop_fuel new_datetime next_ (frequency_sec s) <= fuel)%nat ->
    run_every_loop fuel now new_datetime next_ s due
    = run_every_loop (loop_fuel new_datetime next_ (frequency_sec s))
        now new_datetime next_ s due.
Proof.
  intros fuel now new_datetime next_ s due Hf Hfuel.
  pose proof (timedelta_pos _ Hf) as Hp.
  destruct (turns_spec new_datetime next_ _ Hp) as [Hn _].
  eapply run_every_loop_enough; try eassumption; unfold loop_fuel in *; lia.
Qed.

(** When the record's [last_run] is not behind the clock, every turn
    fires. *)
Lemma run_every_loop_in_step :
  forall n fuel now new_datetime next_ s due,
    0 < timedelta (frequency_sec s) ->
    now <= next_ ->
    last_run s = next_ ->
    new_datetime < next_ + Z.of_nat n * timedelta (frequency_sec s) ->
    (0 < Z.of_nat n ->
     next_ + (Z.of_nat n - 1) * timedelta (frequency_sec s) <= new_datetime) ->
    (n < fuel)%nat ->
    run_every_loop fuel now new_datetime next_ s due
    = (ran (Z.of_nat n) s,
       due ++ due_run n next_ (timedelta (frequency_sec s)) (callback s)
                (kwargs s)).
Proof.
  induction n as [|n IH]; intros fuel now new_datetime next_ s due Hp Hnow Hlast Hn Hn' Hf;
    (destruct fuel as [|fuel]; [lia|]); cbn [run_every_loop];
    destruct (Z.leb_spec next_ new_datetime) as [Hle|Hgt]; try lia.
  - cbn [due_run]. rewrite app_nil_r. f_equal.
    destruct s; unfold ran; cbn. f_equal; lia.
  - destruct (Z.geb_spec next_ now) as [_|?]; [|lia].
    rewrite IH; cbn [frequency_sec with_last_run fired last_run]; try lia.
    cbn [due_run]. rewrite <- app_assoc. cbn [app]. f_equal.
    unfold ran, with_last_run, fired.
    cbn [start frequency_sec callback kwargs run_count last_run is_canceled].
    f_equal; lia.

Qed.

Lemma visit_scheduler_in_step :
  forall now new_datetime s due,
    1 <= frequency_sec s ->
    now <= last_run s ->
    let n := Z.to_nat ((new_datetime - last_run s)
                       / timedelta (frequency_sec s) + 1) in
    visit_scheduler now new_datetime s due
    = (ran (Z.of_nat n) s,
       due ++ due_run n (last_run s) (timedelta (frequency_sec s))
                (callback s) (kwargs s)).
Proof.
  intros now new_datetime s due Hf Hnow n.
  unfold visit_scheduler.
  destruct (Z.ltb_spec (frequency_sec s) 1) as [?|_]; [lia|]. cbn [andb].
  pose proof (timedelta_pos _ Hf) as Hp.
  destruct (turns_spec new_datetime (last_run s) _ Hp) as [Hn Hn'].
  apply run_every_loop_in_step; try assumption; try reflexivity.
  unfold loop_fuel; fold n; lia.
Qed.

(** The record after the loop has gained some number [n] of runs, and the
    [n]-th instant of the run from [next_] is not past the target: the loop
    adds a period to [last_run] only when it fires. *)
Lemma run_every_loop_gain :
  forall fuel now new_datetime next_ s due,
    0 < timedelta (frequency_sec s) ->
    exists n,
      0 <= n /\
      fst (run_every_loop fuel now new_datetime next_ s due) = ran n s /\
      (n = 0 \/
       next_ + (n - 1) * timedelta (frequency_sec s) <= new_datetime).
Proof.
  assert (ran0 : forall s, ran 0 s = s).
  { intros [] ; unfold ran; cbn. f_equal; lia. }
  induction fuel as [|fuel IH]; intros now new_datetime next_ s due Hp.
  - exists 0. cbn. rewrite ran0. repeat split; [lia|now left].
  - cbn [run_every_loop].
    destruct (Z.leb_spec next_ new_datetime) as [Hle|Hgt].
    + destruct (next_ >=? now).
      * destruct (IH now new_datetime (next_ + timedelta (frequency_sec s))
                    (with_last_run (last_run s + timedelta (frequency_sec s))
                       (fired s))
                    (due ++ [(next_, callback s, kwargs s)]) Hp)
          as (n & Hn & Hfst & Hbound).
        exists (n + 1). rewrite Hfst. repeat split; [lia| |].
        { unfold ran, with_last_run, fired.
          cbn [start frequency_sec callback kwargs run_count last_run
                 is_canceled].
          f_equal; lia. }
        right. cbn [frequency_sec with_last_run fired] in Hbound.
        destruct Hbound as [->|Hb]; lia.
      * destruct (IH now new_datetime (next_ + timedelta (frequency_sec s)) s
                    due Hp) as (n & Hn & Hfst & Hbound).
        exists n. repeat split; try assumption.
        destruct Hbound as [->|Hb]; [now left|right; lia].
    + exists 0. cbn [fst]. rewrite ran0. repeat split; [lia|now left].
Qed.

(** A repeating record that is behind the clock stays behind: after the
    advance to [T] its [last_run] is still not past [T]. *)
Lemma behind_the_clock_stays_behind :
  forall now T s,
    1 <= frequency_sec s ->
    last_run s < now ->
    now <= T ->
    last_run (fst (visit_scheduler now T s [])) <= T.
Proof.
  intros now T s Hf Hbehind HT.
  pose proof (timedelta_pos _ Hf) as Hp.
  unfold visit_scheduler.
  destruct (Z.ltb_spec (frequency_sec s) 1) as [?|_]; [lia|]. cbn [andb].
  unfold loop_fuel. cbn [run_every_loop].
  destruct (Z.leb_spec (last_run s) T) as [_|?]; [|lia].
  destruct (Z.geb_spec (last_run s) now) as [?|_]; [lia|].
  destruct (run_every_loop_gain
              (Z.to_nat ((T - last_run s) / timedelta (frequency_sec s) + 1))
              now T (last_run s + timedelta (frequency_sec s)) s [] Hp)
    as (n & Hn & Hfst & Hbound).
  rewrite Hfst. unfold ran. cbn [last_run].
  destruct Hbound as [->|Hb]; lia.
Qed.

Lemma visit_scheduler_acc :
  forall now new_datetime s due,
    visit_scheduler now new_datetime s due
    = (advanced now new_datetime s, due ++ fires now new_datetime s).
Proof.
  intros now new_datetime s due. unfold advanced, fires, visit_scheduler.
  destruct (_ && _); [cbn; now rewrite app_nil_r|].
  destruct (frequency_sec s <? 1); [reflexivity|].
  apply run_every_loop_acc.
Qed.

Lemma collect_due_spec :
  forall now new_datetime schedulers due,
    collect_due now new_datetime schedulers due
    = (map_values (advanced now new_datetime) schedulers,
       due ++ all_fires now new_datetime schedulers).
Proof.
  intros now new_datetime; induction schedulers as [|[h s] rest IH]; intros due.
  - cbn. now rewrite app_nil_r.
  - cbn [collect_due]. rewrite visit_scheduler_acc, IH.
    unfold all_fires. cbn [map_values map flat_map fst snd].
    now rewrite app_assoc.
Qed.

(** A visit leaves the callable and its arguments alone, and every entry it
    adds is a call of that callable. *)
Lemma run_every_loop_entries :
  forall fuel now new_datetime next_ s,
    let r := run_every_loop fuel now new_datetime next_ s [] in
    callback (fst r) = callback s /\
    Forall (fun x => to_call x = CallTimer (callback s) (kwargs s)) (snd r).
Proof.
  induction fuel as [|fuel IH]; intros now new_datetime next_ s; cbn zeta;
    cbn [run_every_loop]; [split; [reflexivity|constructor]|].
  destruct (next_ <=? new_datetime); [|split; [reflexivity|constructor]].
  destruct (next_ >=? now).
  - rewrite run_every_loop_acc. cbn [fst snd].
    destruct (IH now new_datetime (next_ + timedelta (frequency_sec s))
                (with_last_run (last_run s + timedelta (frequency_sec s))
                   (fired s))) as [Hc Hall].
    split; [exact Hc|].
    apply Forall_app; split; [repeat constructor|exact Hall].
  - apply IH.
Qed.

Lemma advanced_callback :
  forall now new_datetime s, callback (advanced now new_datetime s) = callback s.
Proof.
  intros now new_datetime s. unfold advanced, visit_scheduler.
  destruct (_ && _); [reflexivity|].
  destruct (frequency_sec s <? 1); [reflexivity|].
  apply run_every_loop_entries.
Qed.

Lemma fires_entries :
  forall now new_datetime s,
    Forall (fun x => to_call x = CallTimer (callback s) (kwargs s))
      (fires now new_datetime s).
Proof.
  intros now new_datetime s. unfold fires, visit_scheduler.
  destruct (_ && _); [constructor|].
  destruct (frequency_sec s <? 1); [repeat constructor|].
  apply run_every_loop_entries.
Qed.

(** ** Counting the calls of one callable *)

Lemma callable_eqb_refl : forall c, callable_eqb c c = true.
Proof. intros [n]; apply Nat.eqb_refl. Qed.

Lemma timer_calls_to_app :
  forall cb l1 l2,
    timer_calls_to cb (l1 ++ l2)
    = (timer_calls_to cb l1 + timer_calls_to cb l2)%nat.
Proof.
  intros cb l1 l2. unfold timer_calls_to.
  now rewrite filter_app, length_app.
Qed.

Lemma timer_calls_to_perm :
  forall cb l l',
    Permutation l l' -> timer_calls_to cb l = timer_calls_to cb l'.
Proof.
  intros cb l l' H. unfold timer_calls_to.
  induction H as [|x l l' _ IH|x y l|l l' l'' _ IH1 _ IH2]; cbn [filter].
  - reflexivity.
  - destruct (match x with CallTimer _ _ => _ | _ => _ end); cbn; now rewrite IH.
  - destruct (match x with CallTimer _ _ => _ | _ => _ end),
             (match y with CallTimer _ _ => _ | _ => _ end); reflexivity.
  - now rewrite IH1.
Qed.

Lemma timer_calls_to_fires :
  forall cb now new_datetime s,
    timer_calls_to cb (map to_call (fires now new_datetime s))
    = if callable_eqb (callback s) cb
      then List.length (fires now new_datetime s)
      else O.
Proof.
  intros cb now new_datetime s.
  pose proof (fires_entries now new_datetime s) as H.
  induction H as [|x l Hx _ IH]; [now destruct (callable_eqb _ _)|].
  unfold timer_calls_to in *. cbn [map filter]. rewrite Hx.
  destruct (callable_eqb (callback s) cb); cbn [List.length]; now rewrite IH.
Qed.

Lemma timer_calls_to_all_fires :
  forall cb now new_datetime h s schedulers,
    filter (has_callback cb) schedulers = [(h, s)] ->
    timer_calls_to cb (map to_call (all_fires now new_datetime schedulers))
    = List.length (fires now new_datetime s).
Proof.
  intros cb now new_datetime h s schedulers Hone.
  assert (Hgen : forall l,
             timer_calls_to cb (map to_call (all_fires now new_datetime l))
             = timer_calls_to cb
                 (map to_call (all_fires now new_datetime
                                 (filter (has_callback cb) l)))).
  { induction l as [|[h' s'] l IH]; [reflexivity|].
    unfold all_fires in *. cbn [flat_map filter snd].
    rewrite map_app, timer_calls_to_app, IH.
    unfold has_callback at 2. cbn [snd].
    rewrite timer_calls_to_fires.
    destruct (callable_eqb (callback s') cb) eqn:E; [|reflexivity].
    cbn [flat_map snd].
    rewrite map_app, timer_calls_to_app, timer_calls_to_fires, E.
    reflexivity. }
  rewrite Hgen, Hone. unfold all_fires. cbn [flat_map snd].
  rewrite app_nil_r, timer_calls_to_fires.
  assert (Hin : In (h, s) (filter (has_callback cb) schedulers))
    by (rewrite Hone; now left).
  apply filter_In in Hin. destruct Hin as [_ Hcb].
  unfold has_callback in Hcb. cbn [snd] in Hcb. now rewrite Hcb.
Qed.

Lemma filter_has_callback_advanced :
  forall cb now new_datetime schedulers,
    filter (has_callback cb)
      (map_values (advanced now new_datetime) schedulers)
    = map_values (advanced now new_datetime)
        (filter (has_callback cb) schedulers).
Proof.
  intros cb now new_datetime; unfold map_values.
  induction schedulers as [|[h s] l IH]; [reflexivity|].
  cbn [map filter fst snd].
  assert (E : has_callback cb (h, advanced now new_datetime s)
              = has_callback cb (h, s))
    by (unfold has_callback; cbn [snd]; now rewrite advanced_callback).
  rewrite E.
  destruct (has_callback cb (h, s)); cbn [map fst snd]; now rewrite IH.
Qed.

Lemma sget_map_values :
  forall A B (f : A -> B) (d : sdict A) k,
    sget (map_values f d) k = option_map f (sget d k).
Proof.
  intros A B f d k; induction d as [|[k' v] d IH]; [reflexivity|].
  cbn. destruct (String.eqb k' k); [reflexivity|exact IH].
Qed.

Lemma length_due_run :
  forall n t p cb kw, List.length (due_run n t p cb kw) = n.
Proof.
  induction n as [|n IH]; intros t p cb kw; cbn; [reflexivity|].
  now rewrite IH.
Qed.

(** ** Advances with callbacks that leave the driver alone *)

Section Journeys.

Context {W : Type} (handler : call -> M W unit).
Hypothesis handler_benign : benign handler.

Lemma time_travel_to_same :
  forall T (m : machine W),
    T = simulation_time (snd m) -> time_travel_to handler T m = ret tt m.
Proof.
  intros T m ->. unfold time_travel_to. rewrite bind_get_driver.
  now rewrite Z.eqb_refl.
Qed.

Lemma time_travel_to_benign :
  forall T (m : machine W),
    simulation_time (snd m) < T ->
    let now := simulation_time (snd m) in
    let r := time_travel_to handler T m in
    outcome r = inr tt /\
    snd (final r)
    = set_current_datetime T
        (set_schedulers (map_values (advanced now T) (_schedulers (snd m)))
           (snd m)) /\
    calls r = map to_call (sorted (all_fires now T (_schedulers (snd m)))).
Proof.
  intros T m Hlt now r.
  unfold r. rewrite time_travel_to_unfold by exact Hlt.
  rewrite collect_due_spec. cbn [fst snd app]. fold now.
  set (order := sorted (all_fires now T (_schedulers (snd m)))).
  set (before := (fst m, _)).
  pose proof (benign_quiet handler handler_benign) as Hq.
  destruct (fire_all_quiet handler Hq order before) as [Ho Hc].
  rewrite (bind_ok _ _ _ _ _ tt Ho). cbn [outcome final calls].
  unfold modify_driver. cbn [outcome final calls snd].
  rewrite (fire_all_benign handler handler_benign), Hc, app_nil_r.
  repeat split; reflexivity.
Qed.

(** An advance never touches what the mocks of [time], [datetime] and
    [date] return. *)
Lemma time_travel_to_keeps_the_mocks :
  forall T (m : machine W),
    simulation_time (snd m) <= T ->
    let m' := final (time_travel_to handler T m) in
    datetime_return_value (snd m') = datetime_return_value (snd m) /\
    time_return_value (snd m') = time_return_value (snd m) /\
    date_return_value (snd m') = date_return_value (snd m).
Proof.
  intros T m Hle m'.
  destruct (Z.eq_dec T (simulation_time (snd m))) as [Heq|Hne].
  - unfold m'. rewrite time_travel_to_same by exact Heq. repeat split.
  - destruct (time_travel_to_benign T m ltac:(lia)) as (_ & Hfin & _).
    unfold m'. rewrite Hfin. repeat split.
Qed.

Lemma travel_nil : forall m : machine W, travel handler [] m = ret tt m.
Proof. reflexivity. Qed.

(** One leg of a journey: its outcome, and the rest of the journey from
    the state it reached. *)
Lemma travel_cons :
  forall t rest (m : machine W),
    outcome (time_travel_to handler t m) = inr tt ->
    travel handler (t :: rest) m
    = let r := time_travel_to handler t m in
      let r' := travel handler rest (final r) in
      mkRes (outcome r') (final r') (calls r ++ calls r').
Proof.
  intros t rest m H. cbn [travel]. now rewrite (bind_ok _ _ _ _ _ tt H).
Qed.

Lemma ran_ran : forall a b s, ran a (ran b s) = ran (b + a) s.
Proof.
  intros a b s. unfold ran.
  cbn [start frequency_sec callback kwargs run_count last_run is_canceled].
  f_equal; lia.
Qed.

Lemma in_step_visit :
  forall now new_datetime s,
    1 <= frequency_sec s ->
    now <= last_run s ->
    let n := Z.to_nat ((new_datetime - last_run s)
                       / timedelta (frequency_sec s) + 1) in
    advanced now new_datetime s = ran (Z.of_nat n) s /\
    List.length (fires now new_datetime s) = n.
Proof.
  intros now new_datetime s Hf Hnow n. unfold advanced, fires.
  rewrite visit_scheduler_in_step by assumption. fold n. cbn [fst snd app].
  split; [reflexivity|apply length_due_run].
Qed.

(** A journey keeps a repeating record in step, and the calls of its
    callable are the runs it gained. *)
Lemma travel_keeps_up :
  forall (h : handle) (anchor f : Z) (cb : callable) (kw : kwargs_t) (c0 : Z),
    1 <= f ->
    c0 <= anchor ->
    forall path (m : machine W) rc,
      sget (_schedulers (snd m)) h
      = Some (ran rc (new_Scheduler anchor f cb kw)) ->
      kept_up anchor (timedelta f) c0 (simulation_time (snd m)) rc ->
      nondecreasing_from (simulation_time (snd m)) path ->
      let r := travel handler path m in
      outcome r = inr tt /\
      simulation_time (snd (final r))
      = last path (simulation_time (snd m)) /\
      exists rc',
        sget (_schedulers (snd (final r))) h
        = Some (ran rc' (new_Scheduler anchor f cb kw)) /\
        kept_up anchor (timedelta f) c0
          (last path (simulation_time (snd m))) rc' /\
        rc <= rc' /\
        (filter (has_callback cb) (_schedulers (snd m))
         = [(h, ran rc (new_Scheduler anchor f cb kw))] ->
         timer_calls_to cb (calls r) = Z.to_nat (rc' - rc)).
Proof.
  intros h anchor f cb kw c0 Hf Hc0.
  set (s0 := new_Scheduler anchor f cb kw).
  set (p := timedelta f).
  assert (Hp : 0 < p) by (apply timedelta_pos; exact Hf).
  induction path as [|t rest IH]; intros m rc Hget Hkept Hpath r.
  - cbn. repeat split. exists rc.
    repeat split; try assumption; try lia; apply Hkept.
  - destruct Hpath as [Hct Hrest].
    destruct (Z.eq_dec t (simulation_time (snd m))) as [Heq|Hne].
    + (* a leg to the instant the clock shows: nothing happens *)
      subst t.
      assert (Hleg : time_travel_to handler (simulation_time (snd m)) m
                     = ret tt m)
        by (apply time_travel_to_same; reflexivity).
      unfold r. rewrite travel_cons by (rewrite Hleg; reflexivity).
      rewrite Hleg. cbn [ret final calls outcome app].
      destruct (IH m rc Hget Hkept Hrest)
        as (Ho & Hclock & rc' & Hget' & Hkept' & Hle & Hcount).
      assert (Hlast : last (simulation_time (snd m) :: rest)
                        (simulation_time (snd m))
                      = last rest (simulation_time (snd m)))
        by (destruct rest; reflexivity).
      rewrite Hlast. repeat split; try assumption.
      exists rc'. repeat split; try assumption; apply Hkept'.
    + (* a real advance *)
      assert (Hlt : simulation_time (snd m) < t) by lia.
      destruct (time_travel_to_benign t m Hlt) as (Ho & Hfin & Hcalls).
      unfold r. rewrite travel_cons by exact Ho.
      cbn zeta. cbn [outcome final calls].
      set (c := simulation_time (snd m)) in *.
      set (s := ran rc s0).
      assert (Hnow : c <= last_run s).
      { unfold s, ran, s0, new_Scheduler. cbn [last_run frequency_sec].
        fold p. destruct Hkept as (_ & _ & [?|[-> ->]]); lia. }
      destruct (in_step_visit c t s ltac:(exact Hf) Hnow) as [Hadv Hlen].
      cbn zeta in Hadv, Hlen.
      set (n := Z.to_nat ((t - last_run s) / timedelta (frequency_sec s) + 1))
        in *.
      destruct (turns_spec t (last_run s) (timedelta (frequency_sec s))
                  ltac:(exact Hp)) as [Hn Hn'].
      fold n in Hn, Hn'.
      change (timedelta (frequency_sec s)) with p in Hn, Hn'.
      assert (Hlr : last_run s = anchor + rc * p) by reflexivity.
      rewrite Hlr in Hn, Hn'.
      set (m' := final (time_travel_to handler t m)) in *.
      assert (Hclock' : simulation_time (snd m') = t)
        by (rewrite Hfin; reflexivity).
      assert (Hget' : sget (_schedulers (snd m')) h
                      = Some (ran (rc + Z.of_nat n) s0)).
      { rewrite Hfin. cbn [_schedulers set_current_datetime set_schedulers].
        rewrite sget_map_values, Hget. cbn [option_map].
        fold s. rewrite Hadv. unfold s. now rewrite ran_ran. }
      assert (Hkept' : kept_up anchor p c0 (simulation_time (snd m'))
                         (rc + Z.of_nat n)).
      { rewrite Hclock'. destruct Hkept as (H0 & Hlow & _).
        repeat split; [lia| |left; lia].
        intros Hpos. destruct (Z.eq_dec (Z.of_nat n) 0) as [Hz|Hnz].
        - rewrite Hz, Z.add_0_r in *. specialize (Hlow Hpos). lia.
        - specialize (Hn' ltac:(lia)). nia. }
      assert (Hrest' : nondecreasing_from (simulation_time (snd m')) rest)
        by (rewrite Hclock'; exact Hrest).
      destruct (IH m' (rc + Z.of_nat n) Hget' Hkept' Hrest')
        as (Ho' & Hclk & rc' & Hget'' & Hkept'' & Hle & Hcount).
      assert (Hlast : last (t :: rest) c
                      = last rest (simulation_time (snd m'))).
      { rewrite Hclock'. destruct rest as [|t' rest']; [reflexivity|].
        cbn [last]. clear. revert t'.
        induction rest' as [|u l IHl]; intros t'; [reflexivity|].
        cbn [last] in *. apply IHl. }
      rewrite Hlast. repeat split; try assumption.
      exists rc'. repeat split; try apply Hkept''; try assumption; try lia.
      intros Hone.
      rewrite timer_calls_to_app, Hcalls.
      rewrite (timer_calls_to_perm cb _ _
                 (Permutation_map to_call (sorted_perm _))).
      rewrite (timer_calls_to_all_fires cb c t h s _ Hone), Hlen.
      rewrite Hcount; [lia|].
      rewrite Hfin. cbn [_schedulers set_current_datetime set_schedulers].
      rewrite filter_has_callback_advanced, Hone.
      cbn [map_values map fst snd]. fold s. rewrite Hadv. unfold s.
      now rewrite ran_ran.
Qed.

Lemma ran_0_new :
  forall anchor f cb kw,
    ran 0 (new_Scheduler anchor f cb kw) = new_Scheduler anchor f cb kw.
Proof.
  intros. unfold ran, new_Scheduler.
  cbn [start frequency_sec callback kwargs run_count last_run is_canceled].
  f_equal; lia.
Qed.

(** C2 (amended).  A repeating schedule of period [f] seconds, [f >= 1],
    registered at anchor [anchor] while the clock is at or before the
    anchor, is advanced to [anchor + k * period], [k >= 0], an instant
    after the one the journey starts from, through any non-decreasing
    sequence of intermediate advances, with callbacks that leave the
    driver alone.  The journey succeeds and the schedule has fired
    [k + 1] times, once for each of [anchor], [anchor + period], ...,
    [anchor + k * period]: its record counts [k + 1] runs and is due next
    at [anchor + (k + 1) * period], and when no other record has its
    callable the calls of that callable number [k + 1], whatever the
    intermediate advances. *)
Theorem run_every_fires_once_per_period :
  forall (h : handle) (anchor f : Z) (cb : callable) (kw : kwargs_t)
         (k : Z) (path : list instant) (m : machine W),
    1 <= f ->
    sget (_schedulers (snd m)) h = Some (new_Scheduler anchor f cb kw) ->
    simulation_time (snd m) <= anchor ->
    0 <= k ->
    simulation_time (snd m) < anchor + k * timedelta f ->
    nondecreasing_from (simulation_time (snd m))
      (path ++ [anchor + k * timedelta f]) ->
    let r := travel handler (path ++ [anchor + k * timedelta f]) m in
    outcome r = inr tt /\
    simulation_time (snd (final r)) = anchor + k * timedelta f /\
    sget (_schedulers (snd (final r))) h
    = Some (ran (k + 1) (new_Scheduler anchor f cb kw)) /\
    (filter (has_callback cb) (_schedulers (snd m))
     = [(h, new_Scheduler anchor f cb kw)] ->
     timer_calls_to cb (calls r) = Z.to_nat (k + 1)).
Proof.
  intros h anchor f cb kw k path m Hf Hget Hc0 Hk Hgoal Hpath r.
  pose proof (timedelta_pos _ Hf) as Hp.
  rewrite <- (ran_0_new anchor f cb kw) in Hget.
  assert (Hkept : kept_up anchor (timedelta f) (simulation_time (snd m))
                    (simulation_time (snd m)) 0)
    by (repeat split; [lia|lia|right; split; reflexivity]).
  destruct (travel_keeps_up h anchor f cb kw (simulation_time (snd m))
              Hf Hc0 _ m 0 Hget Hkept Hpath)
    as (Ho & Hclock & rc' & Hget' & Hkept' & Hle & Hcount).
  rewrite last_last in Hclock, Hkept'.
  assert (Hrc : rc' = k + 1).
  { destruct Hkept' as (_ & Hlow & [Hup|[_ Heq]]); [|lia].
    assert (k < rc') by nia. specialize (Hlow ltac:(lia)). nia. }
  subst rc'. repeat split; try assumption.
  intros Hone. rewrite ran_0_new in Hcount.
  unfold r. rewrite (Hcount Hone). f_equal; lia.
Qed.

(** C4 (amended).  A one-shot schedule that is not canceled, has not
    fired and whose anchor is the instant the clock shows is fired exactly
    once by the next advance to any later instant: the advance adds the
    one entry for it, its record counts one run, its callable (when no
    other record has it) is called once, and no later advance finds it
    due again. *)
Theorem one_shot_due_now_fires_once :
  forall (h : handle) (s : Scheduler) (T : instant) (m : machine W),
    sget (_schedulers (snd m)) h = Some s ->
    frequency_sec s < 1 ->
    is_canceled s = false ->
    run_count s = 0 ->
    start s = simulation_time (snd m) ->
    simulation_time (snd m) < T ->
    let r := time_travel_to handler T m in
    outcome r = inr tt /\
    fires (simulation_time (snd m)) T s = [(start s, callback s, kwargs s)] /\
    sget (_schedulers (snd (final r))) h = Some (fired s) /\
    run_count (fired s) = 1 /\
    (filter (has_callback (callback s)) (_schedulers (snd m)) = [(h, s)] ->
     timer_calls_to (callback s) (calls r) = 1%nat) /\
    (forall T', simulation_time (snd (final r)) <= T' ->
                fires (simulation_time (snd (final r))) T' (fired s) = [] /\
                advanced (simulation_time (snd (final r))) T' (fired s)
                = fired s).
Proof.
  intros h s T m Hget Hf Hlive Hrc Hstart Hlt r.
  destruct (time_travel_to_benign T m Hlt) as (Ho & Hfin & Hcalls).
  fold r in Ho, Hfin, Hcalls.
  assert (Hvisit : visit_scheduler (simulation_time (snd m)) T s []
                   = (fired s, [(start s, callback s, kwargs s)])).
  { unfold visit_scheduler. rewrite Hlive, Hrc, Hstart.
    destruct (Z.ltb_spec (frequency_sec s) 1) as [_|?]; [|lia].
    rewrite Z.ltb_irrefl, Z.eqb_refl.
    destruct (Z.gtb_spec (simulation_time (snd m)) T) as [?|_]; [lia|].
    reflexivity. }
  assert (Hfires : fires (simulation_time (snd m)) T s
                   = [(start s, callback s, kwargs s)])
    by (unfold fires; now rewrite Hvisit).
  repeat split.
  - exact Ho.
  - exact Hfires.
  - rewrite Hfin. cbn [_schedulers set_current_datetime set_schedulers].
    rewrite sget_map_values, Hget. cbn [option_map]. unfold advanced.
    now rewrite Hvisit.
  - cbn [fired run_count]. lia.
  - intros Hone. rewrite Hcalls.
    rewrite (timer_calls_to_perm _ _ _
               (Permutation_map to_call (sorted_perm _))).
    rewrite (timer_calls_to_all_fires _ _ _ h s _ Hone), Hfires.
    reflexivity.
  - unfold fires, visit_scheduler. cbn [fired frequency_sec start].
    destruct (Z.ltb_spec (frequency_sec s) 1) as [_|?]; [|lia].
    rewrite Hfin. cbn [simulation_time set_current_datetime _current_datetime].
    destruct (Z.ltb_spec (start s) T) as [_|?]; [|lia].
    rewrite orb_true_r. reflexivity.
  - unfold advanced, visit_scheduler. cbn [fired frequency_sec start].
    destruct (Z.ltb_spec (frequency_sec s) 1) as [_|?]; [|lia].
    rewrite Hfin. cbn [simulation_time set_current_datetime _current_datetime].
    destruct (Z.ltb_spec (start s) T) as [_|?]; [|lia].
    rewrite orb_true_r. reflexivity.
Qed.

End Journeys.

(** ** The wrappers of the AppDaemon API *)

Section Wrappers.

Context {W : Type} (handler : call -> M W unit)
  (uuid4_draw : W -> string * W).

Lemma unwrapped_without_update_states :
  forall A (fn : M W A) (m : machine W),
    update_states (snd m) = false ->
    possible_side_effects_state_change fn m = mkRes (inr None) m [].
Proof.
  intros A fn m H. unfold possible_side_effects_state_change.
  rewrite bind_get_driver, H. reflexivity.
Qed.

(** C10.  On a driver built with [update_states=False] the registrations
    [run_at]/[run_once], [run_in], [run_every], [run_daily], [run_hourly],
    [run_minutely] and the calls [turn_on], [turn_off] return [None], leave
    the whole state (schedules, entity states, listeners, clock) as it was
    and call nothing. *)
Theorem nothing_happens_without_update_states :
  forall (m : machine W) (cb : callable) (start_ : instant)
         (delay interval : Z) (entity_id : string) (kw : kwargs_t),
    update_states (snd m) = false ->
    _se_run_at uuid4_draw cb start_ kw m = mkRes (inr None) m [] /\
    _se_run_in uuid4_draw cb delay kw m = mkRes (inr None) m [] /\
    _se_run_every uuid4_draw cb start_ interval kw m = mkRes (inr None) m [] /\
    _se_run_daily uuid4_draw cb start_ kw m = mkRes (inr None) m [] /\
    _se_run_hourly uuid4_draw cb start_ kw m = mkRes (inr None) m [] /\
    _se_run_minutely uuid4_draw cb start_ kw m = mkRes (inr None) m [] /\
    _se_turn_on handler entity_id kw m = mkRes (inr None) m [] /\
    _se_turn_off handler entity_id kw m = mkRes (inr None) m [].
Proof.
  intros m cb start_ delay interval entity_id kw H.
  repeat split; apply unwrapped_without_update_states; exact H.
Qed.

Lemma wrapped_returns_None :
  forall A (fn : M W A) (m : machine W),
    (forall m', exists a, outcome (fn m') = inr a) ->
    outcome (possible_side_effects_state_change fn m) = inr None.
Proof.
  intros A fn m Hfn. unfold possible_side_effects_state_change.
  rewrite bind_get_driver. destruct (update_states (snd m)); [|reflexivity].
  destruct (Hfn m) as [a Ha]. rewrite (bind_ok _ _ _ _ _ a Ha). reflexivity.
Qed.

Lemma _set_scheduler_returns :
  forall start_ f cb kw (m : machine W),
    outcome (_set_scheduler uuid4_draw start_ f cb kw m)
    = inr (fst (uuid4_draw (fst m))).
Proof.
  intros start_ f cb kw m. unfold _set_scheduler, bind, uuid4.
  destruct (uuid4_draw (fst m)) as [u w]. reflexivity.
Qed.

(** C8, on the code.  [_set_scheduler] returns the identifier it drew, but
    every registration goes through the decorator, whose [inner] returns
    nothing: the caller gets [None], on every driver and for every argument,
    and [cancel_timer] of what it got raises [KeyError]. *)
Theorem registrations_return_None :
  forall (m : machine W) (cb : callable) (start_ : instant)
         (delay interval : Z) (kw : kwargs_t),
    outcome (_se_run_at uuid4_draw cb start_ kw m) = inr None /\
    outcome (_se_run_in uuid4_draw cb delay kw m) = inr None /\
    outcome (_se_run_every uuid4_draw cb start_ interval kw m) = inr None /\
    outcome (_se_run_daily uuid4_draw cb start_ kw m) = inr None /\
    outcome (_se_run_hourly uuid4_draw cb start_ kw m) = inr None /\
    outcome (_se_run_minutely uuid4_draw cb start_ kw m) = inr None /\
    outcome (_set_scheduler uuid4_draw start_ 0 cb kw m)
    = inr (fst (uuid4_draw (fst m))) /\
    outcome (_se_cancel_timer (W := W) None m) = inl KeyError.
Proof.
  intros m cb start_ delay interval kw.
  repeat split;
    try (apply wrapped_returns_None; intros m'; eexists;
         try apply _set_scheduler_returns).
  apply _set_scheduler_returns.
Qed.

(** C5, on the code.  When the block of [with self.setup():] raises, the
    exception leaves [setup] where it came in, at the [yield], and the
    assignment after the [yield] does not run: the [with] statement raises
    the block's exception in the state the block ended in. *)
Theorem setup_is_not_reset_when_the_block_raises :
  forall A (block : M W A) (m : machine W) (e : exn),
    outcome (block (fst m, set_setup_active true (snd m))) = inl e ->
    outcome (with_setup block m) = inl e /\
    final (with_setup block m)
    = final (block (fst m, set_setup_active true (snd m))).
Proof.
  intros A block m e H. unfold with_setup, setup_before_yield.
  rewrite bind_modify_driver, H. split; reflexivity.
Qed.

End Wrappers.

(** ** The state store *)

Lemma split_on_without_sep :
  forall sep s, contains sep s = false -> split_on sep s = [s].
Proof.
  intros sep; induction s as [|c rest IH]; intros H; [reflexivity|].
  cbn [contains] in H. apply orb_false_iff in H. destruct H as [Hc Hrest].
  cbn [split_on]. rewrite Hc, (IH Hrest). reflexivity.
Qed.

Lemma sget_sset :
  forall V (d : sdict V) k v k',
    sget (sset d k v) k' = if String.eqb k k' then Some v else sget d k'.
Proof.
  intros V d k v k'; induction d as [|[k0 v0] d IH]; [reflexivity|].
  unfold sget, sset in *. cbn [dict_set].
  destruct (String.eqb_spec k0 k) as [->|Hne]; cbn [dict_get].
  - destruct (String.eqb k k'); reflexivity.
  - rewrite IH. destruct (String.eqb_spec k0 k') as [->|_]; [|reflexivity].
    destruct (String.eqb_spec k k') as [->|_]; [congruence|reflexivity].
Qed.

Lemma keys_sset :
  forall V (d : sdict V) k v k',
    In k' (map fst (sset d k v)) <-> k' = k \/ In k' (map fst d).
Proof.
  intros V d k v k'; induction d as [|[k0 v0] d IH].
  - cbn. intuition.
  - unfold sset in *. cbn [dict_set].
    destruct (String.eqb_spec k0 k) as [->|Hne]; cbn [map fst In].
    + intuition.
    + rewrite IH. intuition.
Qed.

Lemma keys_map_values :
  forall A B (f : A -> B) (d : sdict A), map fst (map_values f d) = map fst d.
Proof.
  intros A B f d. unfold map_values. rewrite map_map. reflexivity.
Qed.

(** Reading through the [defaultdict] does not change what any entity
    reads as. *)
Lemma state_entry_touch :
  forall d entity e,
    state_entry
      (set_states (dict_touch String.eqb default_entry (_states d) entity) d) e
    = state_entry d e.
Proof.
  intros d entity e. unfold state_entry, dict_touch, dict_get_default.
  cbn [_states set_states].
  destruct (dict_get String.eqb (_states d) entity) eqn:Hget; [reflexivity|].
  change (dict_get String.eqb (dict_set String.eqb (_states d) entity
                                 default_entry) e)
    with (sget (sset (_states d) entity default_entry) e).
  rewrite sget_sset. destruct (String.eqb_spec entity e) as [<-|_].
  - now rewrite Hget.
  - reflexivity.
Qed.

Lemma match_domain_keys :
  forall entity_id states acc,
    Forall (fun kv => exists d o, split_on dot (fst kv) = [d; o]) states ->
    exists matched,
      match_domain entity_id states acc = inr matched /\
      forall k,
        In k (map fst matched) <->
        In k (map fst acc) \/
        (In k (map fst states) /\ exists o, split_on dot k = [entity_id; o]).
Proof.
  intros entity_id; induction states as [|[s_eid st] rest IH]; intros acc Hwf.
  - exists acc. split; [reflexivity|]. cbn. intuition.
  - inversion Hwf as [|? ? (d & o & Hsplit) Hrest]; subst.
    cbn [fst] in Hsplit. cbn [match_domain]. rewrite Hsplit.
    destruct (IH (if (d =? entity_id)%string then sset acc s_eid st else acc)
                Hrest) as (matched & Hm & Hkeys).
    exists matched. split; [exact Hm|].
    intros k. rewrite Hkeys. cbn [map fst In].
    destruct (String.eqb_spec d entity_id) as [->|Hne].
    + rewrite keys_sset. split.
      * intros [[->|Hin]|[Hin Ho]]; eauto.
      * intros [Hin|[[<-|Hin] Ho]]; eauto.
    + split.
      * intros [Hin|[Hin Ho]]; eauto.
      * intros [Hin|[[<-|Hin] Ho]]; eauto.
        destruct Ho as [o' Ho']. congruence.
Qed.

Section StateStore.

Context {W : Type} (handler : call -> M W unit).

(** [set_state] on an entity identifier of two parts, with a forced
    previous value that is left out or truthy: the old value is the
    forced one when there is one and the stored attribute (or [None])
    otherwise, and when it equals the new value the call returns without
    calling anything and without changing what any entity reads as.  The
    one trace it leaves is the default entry of an entity that had none;
    when the entity has an entry the state is untouched. *)
Theorem set_state_to_the_old_value_is_silent :
  forall (entity domain object_id : string) (state : pyval)
         (attribute_name : string) (previous : pyval) (trigger : option bool)
         (kw : kwargs_t) (m : machine W),
    split_on dot entity = [domain; object_id] ->
    previous = PNone \/ truthy previous = true ->
    let old_value :=
      match previous with
      | PNone => attr_get (state_entry (snd m) entity) attribute_name
      | _ => previous
      end in
    py_eq old_value state = true ->
    let r := set_state handler entity state attribute_name previous trigger
               kw m in
    outcome r = inr tt /\
    calls r = [] /\
    final r
    = (fst m,
       set_states (dict_touch String.eqb default_entry (_states (snd m)) entity)
         (snd m)) /\
    (forall e, state_entry (snd (final r)) e = state_entry (snd m) e) /\
    (sget (_states (snd m)) entity <> None -> final r = m).
Proof.
  intros entity domain object_id state attribute_name previous trigger kw m
    Hsplit Hprev old_value Heq r.
  assert (Hr : r = mkRes (inr tt)
                     (fst m,
                      set_states (dict_touch String.eqb default_entry
                                    (_states (snd m)) entity) (snd m)) []).
  { unfold r, set_state. rewrite bind_get_driver, Hsplit.
    unfold touch_state. rewrite bind_modify_driver, bind_get_driver.
    cbn [fst snd]. rewrite state_entry_touch.
    assert (Hold : py_or previous
                     (attr_get (state_entry (snd m) entity) attribute_name)
                   = old_value).
    { unfold py_or, old_value.
      destruct Hprev as [->|Ht]; [reflexivity|].
      rewrite Ht. destruct previous; [discriminate|reflexivity..]. }
    rewrite Hold, Heq. reflexivity. }
  rewrite Hr. cbn [outcome calls final snd].
  repeat split.
  - intros e. apply state_entry_touch.
  - intros Hin. unfold dict_touch.
    change (dict_get String.eqb (_states (snd m)) entity)
      with (sget (_states (snd m)) entity).
    destruct (sget (_states (snd m)) entity); [|congruence].
    destruct m as [w []]; reflexivity.
Qed.

(** C6.  A forced previous value that is falsy ([None], [False], [0],
    [""]) is passed over by [previous or prev_state.get(attribute_name)]:
    [set_state] does with it exactly what it does when no previous value
    is forced.  The old value is then the stored one, so a call whose
    forced previous value equals the new value still stores the new value
    and calls the listeners when the stored value differs. *)
Theorem set_state_treats_a_falsy_previous_as_none :
  forall (entity : string) (state : pyval) (attribute_name : string)
         (previous : pyval) (trigger : option bool) (kw : kwargs_t)
         (m : machine W),
    truthy previous = false ->
    set_state handler entity state attribute_name previous trigger kw m
    = set_state handler entity state attribute_name PNone trigger kw m.
Proof.
  intros entity state attribute_name previous trigger kw m Hfalsy.
  unfold set_state, py_or. rewrite Hfalsy. reflexivity.
Qed.

(** C7 (amended).  An identifier without the separator makes [set_state]
    raise [ValueError] before it has touched anything.  [get_state] does
    not fail on it: it takes it for a domain, changes nothing, and on a
    store whose keys have two parts it returns the mapping of the stored
    entities of that domain. *)
Theorem entity_id_without_separator :
  forall (entity : string) (state : pyval) (attribute_name : string)
         (previous : pyval) (trigger : option bool) (kw : kwargs_t)
         (attribute : string) (default : pyval) (m : machine W),
    contains dot entity = false ->
    let s := set_state handler entity state attribute_name previous trigger
               kw m in
    let g := _se_get_state entity attribute default m in
    s = mkRes (inl ValueError) m [] /\
    final g = m /\
    calls g = [] /\
    (Forall (fun kv => exists d o, split_on dot (fst kv) = [d; o])
       (_states (snd m)) ->
     exists mapping,
       outcome g = inr (Many mapping) /\
       forall eid,
         In eid (map fst mapping) <->
         In eid (map fst (_states (snd m))) /\
         exists o, split_on dot eid = [entity; o]).
Proof.
  intros entity state attribute_name previous trigger kw attribute default m
    Hdot s g.
  assert (Hs : s = mkRes (inl ValueError) m []).
  { unfold s, set_state. rewrite bind_get_driver.
    rewrite (split_on_without_sep _ _ Hdot). reflexivity. }
  assert (Hg : g = bind (bind get_driver
                          (fun d => match match_domain entity (_states d) [] with
                                    | inl e => raise e
                                    | inr mm => ret mm
                                    end))
                     (fun matched_states =>
                        ret (Many
                               (match default with
                                | PNone =>
                                    if negb (attribute =? "all")%string
                                    then map_values
                                           (fun st => Val (attr_get st attribute))
                                           matched_states
                                    else map_values Attrs matched_states
                                | _ =>
                                    map_values
                                      (fun o => if obj_truthy o then o
                                                else Val default)
                                      (if negb (attribute =? "all")%string
                                       then map_values
                                              (fun st =>
                                                 Val (attr_get st attribute))
                                              matched_states
                                       else map_values Attrs matched_states)
                                end))) m).
  { unfold g, _se_get_state. rewrite Hdot. reflexivity. }
  split; [exact Hs|].
  rewrite Hg. clear Hg.
  set (look := bind get_driver _).
  assert (Hlook : look m
                  = match match_domain entity (_states (snd m)) [] with
                    | inl e => raise e m
                    | inr mm => ret mm m
                    end).
  { unfold look. rewrite bind_get_driver.
    destruct (match_domain entity (_states (snd m)) []); reflexivity. }
  destruct (match_domain entity (_states (snd m)) []) as [e|mm] eqn:Hmd.
  - rewrite (bind_raised _ _ _ _ _ e) by (rewrite Hlook; reflexivity).
    rewrite Hlook. repeat split. intros Hwf.
    destruct (match_domain_keys entity _ [] Hwf) as (mm & Hmm & _).
    congruence.
  - rewrite (bind_ok _ _ _ _ _ mm) by (rewrite Hlook; reflexivity).
    rewrite Hlook. repeat split. intros Hwf.
    destruct (match_domain_keys entity _ [] Hwf) as (mm' & Hmm & Hkeys).
    assert (mm' = mm) by congruence. subst mm'.
    eexists. split; [reflexivity|].
    intros eid.
    assert (Hk : forall l : sdict pyobj,
               map fst l = map fst mm ->
               (In eid (map fst l) <->
                In eid (map fst (_states (snd m))) /\
                (exists o, split_on dot eid = [entity; o]))).
    { intros l ->. rewrite Hkeys. cbn. intuition. }
    apply Hk.
    destruct default; destruct (negb (attribute =? "all")%string);
      rewrite ?keys_map_values; reflexivity.
Qed.

End StateStore.

(** ** The scenarios of the test suite *)

Lemma my_callback_benign : benign Fixture.my_callback.
Proof. intros c m; repeat split. Qed.

Lemma my_callback_quiet : quiet Fixture.my_callback.
Proof. intros c m; split; reflexivity. Qed.

(** From 12:00 to 12:15 in one advance, with a one-shot at 12:10 registered
    before a five-minute schedule from 12:05: the two entries of 12:10 fire
    between those of 12:05 and 12:15, the one-shot first; the journal of
    the callbacks reads 2, 1, 2, 2 and the clock ends at 12:15. *)
Lemma two_timers_fire_in_order :
  let advance :=
    time_travel_to Fixture.journal_callback (Fixture.at_minute 15)
      Fixture.two_timers in
  simulation_time (snd Fixture.two_timers) < Fixture.at_minute 15 /\
  calls advance
  = [CallTimer Fixture.cb2 []; CallTimer Fixture.cb1 [];
     CallTimer Fixture.cb2 []; CallTimer Fixture.cb2 []] /\
  outcome advance = inr tt /\
  Fixture.my_value (fst (final advance)) = 2122%nat /\
  _current_datetime (snd (final advance)) = Fixture.at_minute 15 /\
  _states (snd (final advance)) = _states (snd Fixture.two_timers).
Proof.
  intros advance.
  assert (H : simulation_time (snd Fixture.two_timers) < Fixture.at_minute 15)
    by reflexivity.
  split; [exact H|].
  destruct (time_travel_to_fires_in_stable_order Fixture.journal_callback
              (Fixture.at_minute 15) Fixture.two_timers H)
    as (_ & _ & _ & Hcalls & Hend & _).
  fold advance in Hcalls, Hend.
  split; [rewrite Hcalls; reflexivity|].
  match type of Hend with
  | match outcome ?fire with _ => _ end =>
      change (outcome advance = inr tt /\
              fst (final advance) = fst (final fire) /\
              _current_datetime (snd (final advance)) = Fixture.at_minute 15 /\
              same_but_clock (snd (final fire)) (snd (final advance)))
        in Hend
  end.
  destruct Hend as (Hout & Hworld & Hclock & Hrest).
  split; [exact Hout|].
  split; [rewrite Hworld; reflexivity|].
  split; [exact Hclock|].
  destruct Hrest as (_ & _ & _ & _ & _ & _ & _ & Hstates & _).
  rewrite Hstates. reflexivity.
Defined.

(** [run_every] with 90 seconds from 12:10, advanced to 12:05, 12:10 and
    12:16, which is the anchor and four periods: five calls. *)
Lemma run_every_90s_fires_five_times :
  timer_calls_to Fixture.cb
    (calls (travel Fixture.my_callback
              ([Fixture.at_minute 5; Fixture.at_minute 10]
               ++ [Fixture.at_minute 10 + 4 * timedelta 90])
              (Fixture.with_run_every (Fixture.at_minute 10) 90)))
  = 5%nat.
Proof.
  destruct (run_every_fires_once_per_period Fixture.my_callback
              my_callback_benign Fixture.first_handle (Fixture.at_minute 10)
              90 Fixture.cb [] 4 [Fixture.at_minute 5; Fixture.at_minute 10]
              (Fixture.with_run_every (Fixture.at_minute 10) 90))
    as (_ & _ & _ & Hcount).
  - lia.
  - reflexivity.
  - vm_compute; discriminate.
  - lia.
  - reflexivity.
  - vm_compute. repeat split; discriminate.
  - exact (Hcount eq_refl).
Defined.

(** The same journey against the count the claim gives: 12:16 is the
    anchor and [k = 4] periods, the journey never goes back, and the
    callback ran five times, not four. *)
Lemma run_every_does_not_fire_k_times :
  let m := Fixture.with_run_every (Fixture.at_minute 10) 90 in
  let path := [Fixture.at_minute 5; Fixture.at_minute 10;
               Fixture.at_minute 16] in
  let r := travel Fixture.my_callback path m in
  sget (_schedulers (snd m)) Fixture.first_handle
  = Some (new_Scheduler (Fixture.at_minute 10) 90 Fixture.cb []) /\
  simulation_time (snd m) <= Fixture.at_minute 10 /\
  Fixture.at_minute 16 = Fixture.at_minute 10 + 4 * timedelta 90 /\
  nondecreasing_from (simulation_time (snd m)) path /\
  outcome r = inr tt /\
  timer_calls_to Fixture.cb (calls r) = 5%nat /\
  Fixture.my_value (fst (final r)) = 5%nat /\
  option_map run_count (sget (_schedulers (snd (final r))) Fixture.first_handle)
  = Some 5 /\
  timer_calls_to Fixture.cb (calls r) <> 4%nat.
Proof.
  vm_compute. repeat split; try discriminate.
Qed.

(** A one-shot at 12:00 on a driver whose clock shows 12:00, advanced to
    12:10: one call. *)
Lemma run_at_now_fires_once :
  timer_calls_to Fixture.cb
    (calls (time_travel_to Fixture.my_callback (Fixture.at_minute 10)
              (Fixture.with_run_at Fixture.BASE_DATE)))
  = 1%nat.
Proof.
  destruct (one_shot_due_now_fires_once Fixture.my_callback
              my_callback_benign Fixture.first_handle
              (new_Scheduler Fixture.BASE_DATE 0 Fixture.cb [])
              (Fixture.at_minute 10) (Fixture.with_run_at Fixture.BASE_DATE))
    as (_ & _ & _ & _ & Hcount & _).
  - reflexivity.
  - reflexivity.
  - reflexivity.
  - reflexivity.
  - reflexivity.
  - reflexivity.
  - exact (Hcount eq_refl).
Defined.

(** A one-shot registered for 11:55 when the clock shows 12:00 has not
    fired, and the advance to 12:10 does not fire it: no call is made and
    its record still counts no run. *)
Lemma run_at_in_the_past_never_fires :
  let m := Fixture.with_run_at (Fixture.at_minute (-5)) in
  let r := time_travel_to Fixture.my_callback (Fixture.at_minute 10) m in
  sget (_schedulers (snd m)) Fixture.first_handle
  = Some (new_Scheduler (Fixture.at_minute (-5)) 0 Fixture.cb []) /\
  Fixture.at_minute (-5) <= simulation_time (snd m) /\
  simulation_time (snd m) < Fixture.at_minute 10 /\
  outcome r = inr tt /\
  calls r = [] /\
  Fixture.my_value (fst (final r)) = 0%nat /\
  sget (_schedulers (snd (final r))) Fixture.first_handle
  = Some (new_Scheduler (Fixture.at_minute (-5)) 0 Fixture.cb []).
Proof.
  vm_compute. repeat split; discriminate.
Qed.

(** [set_state("light.x", "on")] when [light.x] is on: nothing is called
    and the state is what it was. *)
Lemma set_state_on_again_is_silent :
  calls (set_state Fixture.my_callback "light.x" (PStr "on") "state" PNone
           None [] Fixture.light_on) = [] /\
  final (set_state Fixture.my_callback "light.x" (PStr "on") "state" PNone
           None [] Fixture.light_on) = Fixture.light_on.
Proof.
  destruct (set_state_to_the_old_value_is_silent Fixture.my_callback
              "light.x" "light" "x" (PStr "on") "state" PNone None []
              Fixture.light_on)
    as (_ & Hcalls & _ & _ & Hsame).
  - reflexivity.
  - left; reflexivity.
  - reflexivity.
  - split; [exact Hcalls|]. apply Hsame. vm_compute. discriminate.
Defined.

(** [set_state("light.y", "on", previous="on")] on the fresh driver: the
    forced old value equals the new one and nothing is called, but the store
    has gained the entity, as [get_state("light")] shows. *)
Lemma set_state_to_the_old_value_creates_the_entity :
  let m := Fixture.hass_driver in
  let r := set_state Fixture.my_callback "light.y" (PStr "on") "state"
             (PStr "on") None [] m in
  py_eq (PStr "on") (PStr "on") = true /\
  outcome r = inr tt /\
  calls r = [] /\
  _states (snd m) = [] /\
  _states (snd (final r)) = [("light.y", [("state", PNone)])] /\
  outcome (_se_get_state "light" "state" PNone m) = inr (Many []) /\
  outcome (_se_get_state "light" "state" PNone (final r))
  = inr (Many [("light.y", Val PNone)]) /\
  final r <> m.
Proof.
  vm_compute. repeat split; discriminate.
Qed.

(** With [light.x] on, [set_state("light.x", 0, previous=0)]: the forced
    old value equals the new one, yet the call compares the stored ["on"]
    with [0], stores [0] and calls the listener with ["on"] as the old
    value. *)
Lemma set_state_passes_over_a_falsy_previous :
  let r := set_state Fixture.my_callback "light.x" (PInt 0) "state" (PInt 0)
             None [] Fixture.light_on in
  truthy (PInt 0) = false /\
  py_eq (PInt 0) (PInt 0) = true /\
  state_entry (snd Fixture.light_on) "light.x" = [("state", PStr "on")] /\
  outcome r = inr tt /\
  calls r = [CallSpy Fixture.cb "light.x" (Some "state") (Val (PStr "on"))
               (Val (PInt 0)) []] /\
  state_entry (snd (final r)) "light.x" = [("state", PInt 0)] /\
  Fixture.my_value (fst (final r))
  = S (Fixture.my_value (fst Fixture.light_on)).
Proof.
  intros r. unfold r.
  rewrite (set_state_treats_a_falsy_previous_as_none Fixture.my_callback
             "light.x" (PInt 0) "state" (PInt 0) None [] Fixture.light_on
             eq_refl).
  split; [reflexivity|]. split; [reflexivity|]. split; [reflexivity|].
  split; [reflexivity|]. split; [reflexivity|]. split; reflexivity.
Defined.

(** [set_state("light", ...)] raises and changes nothing. *)
Lemma set_state_on_a_domain_raises :
  contains dot "light" = false /\
  set_state Fixture.my_callback "light" (PStr "on") "state" PNone None []
    Fixture.light_on
  = mkRes (inl ValueError) Fixture.light_on [].
Proof.
  split; [reflexivity|].
  apply (entity_id_without_separator Fixture.my_callback "light" (PStr "on")
           "state" PNone None [] "state" PNone Fixture.light_on).
  reflexivity.
Defined.

(** [get_state("light")] does not fail: it returns the entities of the
    domain. *)
Lemma get_state_on_a_domain_returns_a_mapping :
  contains dot "light" = false /\
  _se_get_state "light" "state" PNone Fixture.light_on
  = mkRes (inr (Many [("light.x", Val (PStr "on"))])) Fixture.light_on [] /\
  _se_get_state "light" "state" PNone Fixture.hass_driver
  = mkRes (inr (Many [])) Fixture.hass_driver [].
Proof.
  vm_compute. repeat split.
Qed.

(** On [HassDriver(update_states=False)], [run_at] returns [None] and
    registers nothing. *)
Lemma run_at_without_update_states :
  update_states (snd Fixture.passive_driver) = false /\
  _se_run_at Fixture.uuid4_draw Fixture.cb (Fixture.at_minute 10) []
    Fixture.passive_driver
  = mkRes (inr None) Fixture.passive_driver [].
Proof.
  split; [reflexivity|].
  apply (nothing_happens_without_update_states Fixture.my_callback
           Fixture.uuid4_draw Fixture.passive_driver Fixture.cb
           (Fixture.at_minute 10) 0 0 "light.x" []).
  reflexivity.
Defined.

(** A block that raises inside [with hass_driver.setup():] leaves the
    driver in its setup phase: the flag stays set, and the next
    [set_state("light.x", "on")] changes the state without calling the
    listener of [light.x]. *)
Lemma setup_flag_stays_set_after_a_failure :
  let r := with_setup Fixture.failing_block Fixture.with_listener in
  outcome r = inl ValueError /\
  _setup_active (snd (final r)) = true /\
  calls (set_state Fixture.my_callback "light.x" (PStr "on") "state" PNone
           None [] (final r)) = [] /\
  calls (set_state Fixture.my_callback "light.x" (PStr "on") "state" PNone
           None [] Fixture.with_listener)
  = [CallSpy Fixture.cb "light.x" (Some "state") (Val PNone)
       (Val (PStr "on")) []].
Proof.
  destruct (setup_is_not_reset_when_the_block_raises unit
              Fixture.failing_block
              Fixture.with_listener ValueError eq_refl) as [Ho Hf].
  cbn zeta. rewrite Ho, Hf. repeat split.
Defined.

(** C3, on the code.  [run_every] every 10 seconds with its anchor at
    11:59:35, registered when the clock shows 12:00:00.  The advance to
    12:00:20 fires 12:00:05 and 12:00:15 and leaves [last_run] at 11:59:55,
    two periods on from the anchor, not at 12:00:25, the first instant of
    the run after 12:00:20.  With the record behind the clock, the advances
    to 12:00:15 and then 12:00:25 call the callback four times for the
    three instants 12:00:05, 12:00:15 and 12:00:25, which one advance to
    12:00:25 calls three times. *)
Theorem run_every_anchored_in_the_past_falls_behind :
  let m := Fixture.with_run_every (Fixture.at_second (-25)) 10 in
  let r := time_travel_to Fixture.my_callback (Fixture.at_second 20) m in
  sget (_schedulers (snd m)) Fixture.first_handle
  = Some (new_Scheduler (Fixture.at_second (-25)) 10 Fixture.cb []) /\
  simulation_time (snd m) = Fixture.at_second 0 /\
  fires (Fixture.at_second 0) (Fixture.at_second 20)
    (new_Scheduler (Fixture.at_second (-25)) 10 Fixture.cb [])
  = [(Fixture.at_second 5, Fixture.cb, []);
     (Fixture.at_second 15, Fixture.cb, [])] /\
  option_map last_run
    (sget (_schedulers (snd (final r))) Fixture.first_handle)
  = Some (Fixture.at_second (-5)) /\
  Fixture.at_second (-5) < Fixture.at_second 20 /\
  timer_calls_to Fixture.cb
    (calls (travel Fixture.my_callback
              [Fixture.at_second 15; Fixture.at_second 25] m)) = 4%nat /\
  timer_calls_to Fixture.cb
    (calls (travel Fixture.my_callback [Fixture.at_second 25] m)) = 3%nat.
Proof.
  vm_compute. repeat split.
Qed.

(** C9, on the code.  The mocks [time], [datetime] and [date] were given
    their return values when the driver was built: after the advance from
    12:00 to 12:10 of the next day they still answer with 12:00 of the first
    day, while [simulation_time] is the instant reached. *)
Theorem time_mocks_keep_the_instant_of_construction :
  let T := Fixture.at_minute (24 * 60 + 10) in
  let m := final (time_travel_to Fixture.my_callback T Fixture.hass_driver) in
  simulation_time (snd m) = T /\
  outcome (mock_datetime m) = inr Fixture.BASE_DATE /\
  outcome (mock_time m) = inr (time_of Fixture.BASE_DATE) /\
  outcome (mock_date m) = inr (date_of Fixture.BASE_DATE) /\
  Fixture.BASE_DATE <> T /\
  time_of Fixture.BASE_DATE <> time_of T /\
  date_of Fixture.BASE_DATE <> date_of T.
Proof.
  vm_compute. repeat split; discriminate.
Qed.

(** * Further properties of the clock and the scheduler *)

(** ** Advances that do not go forward *)

Lemma time_travel_to_past :
  forall W (handler : call -> M W unit) (T : instant) (m : machine W),
    T < simulation_time (snd m) ->
    time_travel_to handler T m = raise ValueError m.
Proof.
  intros W handler T m Hlt. unfold time_travel_to. rewrite bind_get_driver.
  destruct (Z.eqb_spec T (simulation_time (snd m))) as [?|_]; [lia|].
  destruct (Z.ltb_spec T (simulation_time (snd m))) as [_|?]; [|lia].
  reflexivity.
Qed.

(** X1.  An advance to the instant the clock shows, or to an earlier one,
    calls nothing and changes nothing, whatever is registered and whatever
    the callbacks would do; it returns in the first case and raises
    [ValueError] in the second. *)
Theorem time_travel_to_not_forward :
  forall W (handler : call -> M W unit) (T : instant) (m : machine W),
    T <= simulation_time (snd m) ->
    let r := time_travel_to handler T m in
    final r = m /\
    calls r = [] /\
    outcome r
    = if T =? simulation_time (snd m) then inr tt else inl ValueError.
Proof.
  intros W handler T m Hle r. unfold r.
  destruct (Z.eqb_spec T (simulation_time (snd m))) as [Heq|Hne].
  - rewrite time_travel_to_same by exact Heq. repeat split.
  - rewrite time_travel_to_past by lia. repeat split.
Qed.

(** X2.  An advance that returns has put the clock on its target, which
    was not in the past; this holds for callbacks of any kind, also for
    callbacks that advance the clock themselves. *)
Theorem time_travel_to_lands_on_its_target :
  forall W (handler : call -> M W unit) (T : instant) (m : machine W),
    outcome (time_travel_to handler T m) = inr tt ->
    simulation_time (snd (final (time_travel_to handler T m))) = T /\
    simulation_time (snd m) <= T.
Proof.
  intros W handler T m Hok.
  destruct (Z.lt_trichotomy T (simulation_time (snd m))) as [Hlt|[Heq|Hgt]].
  - rewrite time_travel_to_past in Hok by exact Hlt. discriminate.
  - rewrite time_travel_to_same by exact Heq. cbn [ret final]. lia.
  - rewrite time_travel_to_unfold in * by exact Hgt.
    unfold bind in *.
    destruct (outcome (fire_all handler _ _)); [discriminate|].
    cbn [final modify_driver snd set_current_datetime simulation_time
           _current_datetime]. lia.
Qed.

(** ** What one advance collects *)

Lemma run_every_loop_within :
  forall fuel now T next_ s due,
    Forall (within now T) due ->
    Forall (within now T) (snd (run_every_loop fuel now T next_ s due)).
Proof.
  induction fuel as [|fuel IH]; intros now T next_ s due Hdue;
    cbn [run_every_loop]; [exact Hdue|].
  destruct (Z.leb_spec next_ T) as [Hle|_]; [|exact Hdue].
  destruct (Z.geb_spec next_ now) as [Hge|_]; apply IH; [|exact Hdue].
  apply Forall_app; split; [exact Hdue|].
  constructor; [|constructor]. unfold within, fire_instant; cbn [fst]. lia.
Qed.

Lemma visit_scheduler_within :
  forall now T s due,
    Forall (within now T) due ->
    Forall (within now T) (snd (visit_scheduler now T s due)).
Proof.
  intros now T s due Hdue. unfold visit_scheduler.
  destruct (frequency_sec s <? 1); cbn [andb];
    [|apply run_every_loop_within; exact Hdue].
  destruct (is_canceled s); cbn [orb]; [exact Hdue|].
  destruct (Z.ltb_spec (start s) now) as [_|Hge]; cbn [orb]; [exact Hdue|].
  destruct (Z.gtb_spec (start s) T) as [_|Hle]; cbn [orb]; [exact Hdue|].
  destruct ((start s =? now) && (run_count s >? 0)); [exact Hdue|].
  cbn [snd]. apply Forall_app; split; [exact Hdue|].
  constructor; [|constructor]. unfold within, fire_instant; cbn [fst]. lia.
Qed.

(** X3.  Every entry an advance from [now] to [T] collects lies in the
    closed interval from [now] to [T]: no callback is queued for an instant
    the clock has already left or has not reached. *)
Theorem collected_fires_lie_within_the_advance :
  forall now T schedulers,
    Forall (within now T) (snd (collect_due now T schedulers [])).
Proof.
  intros now T schedulers.
  assert (H : forall due,
             Forall (within now T) due ->
             Forall (within now T) (snd (collect_due now T schedulers due))).
  { induction schedulers as [|[h s] rest IH]; intros due Hdue; [exact Hdue|].
    cbn [collect_due].
    pose proof (visit_scheduler_within now T s due Hdue) as Hv.
    destruct (visit_scheduler now T s due) as [s' due1]. cbn [snd] in Hv.
    specialize (IH due1 Hv).
    destruct (collect_due now T rest due1) as [rest' due2]. exact IH. }
  apply H. constructor.
Qed.

Lemma run_every_loop_books :
  forall fuel now T next_ s due,
    let r := run_every_loop fuel now T next_ s due in
    same_schedule s (fst r) /\
    run_count (fst r) + Z.of_nat (List.length due)
    = run_count s + Z.of_nat (List.length (snd r)).
Proof.
  induction fuel as [|fuel IH]; intros now T next_ s due; cbn zeta;
    cbn [run_every_loop].
  - repeat split.
  - destruct (next_ <=? T); [|repeat split].
    destruct (next_ >=? now); [|apply IH].
    destruct (IH now T (next_ + timedelta (frequency_sec s))
                (with_last_run (last_run s + timedelta (frequency_sec s))
                   (fired s))
                (due ++ [(next_, callback s, kwargs s)])) as [Hsame Hcount].
    split; [exact Hsame|].
    rewrite length_app in Hcount. cbn [List.length fired with_last_run
                                         run_count] in Hcount. lia.
Qed.

Lemma visit_scheduler_books :
  forall now T s,
    same_schedule s (advanced now T s) /\
    run_count (advanced now T s)
    = run_count s + Z.of_nat (List.length (fires now T s)).
Proof.
  intros now T s. unfold advanced, fires, visit_scheduler.
  destruct (_ && _); [repeat split; cbn; lia|].
  destruct (frequency_sec s <? 1); [repeat split|].
  destruct (run_every_loop_books
              (loop_fuel T (last_run s) (frequency_sec s)) now T (last_run s)
              s []) as [Hsame Hcount].
  split; [exact Hsame|]. cbn [List.length] in Hcount. lia.
Qed.

(** ** Journeys with callbacks that leave the driver alone *)

Lemma last_cons :
  forall (rest : list instant) t c, last (t :: rest) c = last rest t.
Proof.
  induction rest as [|u rest IH]; intros t c; [reflexivity|].
  change (last (t :: u :: rest) c) with (last (u :: rest) c).
  rewrite (IH u c), (IH u t). reflexivity.
Qed.

Lemma nondecreasing_last :
  forall path c, nondecreasing_from c path -> c <= last path c.
Proof.
  induction path as [|t rest IH]; intros c H; [cbn; lia|].
  destruct H as [Hct Hrest]. rewrite last_cons.
  specialize (IH t Hrest). lia.
Qed.

(** A journey that ends where it began has stood still. *)
Lemma travel_nowhere :
  forall W (handler : call -> M W unit) path (m : machine W),
    nondecreasing_from (simulation_time (snd m)) path ->
    last path (simulation_time (snd m)) = simulation_time (snd m) ->
    travel handler path m = ret tt m.
Proof.
  intros W handler; induction path as [|t rest IH]; intros m Hpath Hlast;
    [reflexivity|].
  destruct Hpath as [Hct Hrest]. rewrite last_cons in Hlast.
  pose proof (nondecreasing_last rest t Hrest) as Hle.
  assert (t = simulation_time (snd m)) as -> by lia.
  cbn [travel].
  rewrite (bind_ok _ _ _ _ _ tt)
    by (rewrite time_travel_to_same; reflexivity).
  rewrite time_travel_to_same by reflexivity.
  cbn [ret final calls outcome app]. rewrite (IH m Hrest Hlast).
  reflexivity.
Qed.

Lemma filter_has_callback_sset :
  forall cb (d : sdict Scheduler) h s s',
    sget d h = Some s ->
    callback s' = callback s ->
    filter (has_callback cb) d = [(h, s)] ->
    filter (has_callback cb) (sset d h s') = [(h, s')].
Proof.
  intros cb d h s s' Hget Hcb.
  assert (Hsame : has_callback cb (h, s') = has_callback cb (h, s))
    by (unfold has_callback; cbn [snd]; now rewrite Hcb).
  induction d as [|[k0 v0] d IH]; intros Hone; [discriminate|].
  unfold sget, sset in *. cbn [dict_get dict_set] in *.
  destruct (String.eqb_spec k0 h) as [->|Hne].
  - injection Hget as ->. cbn [filter] in *. rewrite Hsame.
    destruct (has_callback cb (h, s)) eqn:E.
    + injection Hone as Hrest. now rewrite Hrest.
    + assert (Hin : In (h, s) (filter (has_callback cb) d))
        by (rewrite Hone; now left).
      apply filter_In in Hin. destruct Hin as [_ Hin]. congruence.
  - cbn [filter] in *. destruct (has_callback cb (k0, v0)).
    + injection Hone as Hk _. congruence.
    + apply IH; assumption.
Qed.

Section Ledger.

Context {W : Type} (handler : call -> M W unit).
Hypothesis handler_benign : benign handler.

(** X4.  A forward advance keeps the handles and their order and changes
    no record beyond its run count and [last_run]: anchor, period,
    callable, arguments and the canceled flag stay.  The run count never
    goes down, and it goes up by the number of calls the advance makes for
    the record (counted when no other record has its callable). *)
Theorem advance_keeps_the_books :
  forall (T : instant) (m : machine W),
    simulation_time (snd m) < T ->
    let r := time_travel_to handler T m in
    map fst (_schedulers (snd (final r))) = map fst (_schedulers (snd m)) /\
    forall h s,
      sget (_schedulers (snd m)) h = Some s ->
      exists s',
        sget (_schedulers (snd (final r))) h = Some s' /\
        same_schedule s s' /\
        run_count s <= run_count s' /\
        (filter (has_callback (callback s)) (_schedulers (snd m)) = [(h, s)] ->
         Z.of_nat (timer_calls_to (callback s) (calls r))
         = run_count s' - run_count s).
Proof.
  intros T m Hlt r.
  destruct (time_travel_to_benign handler handler_benign T m Hlt)
    as (_ & Hfin & Hcalls).
  fold r in Hfin, Hcalls. rewrite Hfin.
  cbn [_schedulers set_current_datetime set_schedulers].
  split; [apply keys_map_values|].
  intros h s Hget.
  exists (advanced (simulation_time (snd m)) T s).
  rewrite sget_map_values, Hget.
  destruct (visit_scheduler_books (simulation_time (snd m)) T s)
    as [Hsame Hcount].
  repeat split; try apply Hsame; [lia|].
  intros Hone. rewrite Hcalls.
  rewrite (timer_calls_to_perm _ _ _
             (Permutation_map to_call (sorted_perm _))).
  rewrite (timer_calls_to_all_fires _ _ _ h s _ Hone). lia.
Qed.

(** X5.  A repeating schedule of period [f] seconds registered at
    [anchor], not before the clock, has after any journey that never goes
    back fired once for each instant [anchor], [anchor + period], ... up to
    the instant [c] the journey ends at, aligned to the period or not:
    [(c - anchor) / period + 1] times when the clock moved and reached the
    anchor, and not at all otherwise. *)
Theorem run_every_fire_count :
  forall (h : handle) (anchor f : Z) (cb : callable) (kw : kwargs_t)
         (path : list instant) (m : machine W),
    1 <= f ->
    sget (_schedulers (snd m)) h = Some (new_Scheduler anchor f cb kw) ->
    simulation_time (snd m) <= anchor ->
    nondecreasing_from (simulation_time (snd m)) path ->
    let c := last path (simulation_time (snd m)) in
    let n := runs_until anchor (timedelta f) (simulation_time (snd m)) c in
    let r := travel handler path m in
    outcome r = inr tt /\
    simulation_time (snd (final r)) = c /\
    sget (_schedulers (snd (final r))) h
    = Some (ran n (new_Scheduler anchor f cb kw)) /\
    (filter (has_callback cb) (_schedulers (snd m))
     = [(h, new_Scheduler anchor f cb kw)] ->
     timer_calls_to cb (calls r) = Z.to_nat n).
Proof.
  intros h anchor f cb kw path m Hf Hget Hc0 Hpath c n r.
  pose proof (timedelta_pos _ Hf) as Hp.
  pose proof (nondecreasing_last _ _ Hpath) as Hlast. fold c in Hlast.
  destruct (Z.eq_dec c (simulation_time (snd m))) as [Heq|Hne].
  - assert (Hn : n = 0).
    { unfold n, runs_until. rewrite Heq, Z.ltb_irrefl, andb_false_r.
      reflexivity. }
    unfold r. rewrite (travel_nowhere W handler path m Hpath Heq).
    rewrite Hn, ran_0_new, Heq. cbn [ret outcome final calls].
    repeat split; assumption.
  - rewrite <- (ran_0_new anchor f cb kw) in Hget.
    assert (Hkept : kept_up anchor (timedelta f) (simulation_time (snd m))
                      (simulation_time (snd m)) 0)
      by (repeat split; [lia|lia|right; split; reflexivity]).
    destruct (travel_keeps_up handler handler_benign h anchor f cb kw
                (simulation_time (snd m)) Hf Hc0 path m 0 Hget Hkept Hpath)
      as (Ho & Hclock & rc' & Hget' & Hkept' & Hle & Hcount).
    fold c in Hclock, Hkept'. fold r in Ho, Hclock, Hget', Hcount.
    assert (Hrc : rc' = n).
    { unfold n, runs_until.
      destruct Hkept' as (_ & Hlow & [Hup|[_ Hc]]); [|congruence].
      destruct (Z.leb_spec anchor c) as [Hac|Hac]; cbn [andb].
      - destruct (Z.ltb_spec (simulation_time (snd m)) c) as [_|?]; [|lia].
        assert (0 < rc') by nia. specialize (Hlow ltac:(lia)).
        assert ((c - anchor) / timedelta f = rc' - 1); [|lia].
        symmetry.
        apply (Z.div_unique _ _ _ (c - anchor - (rc' - 1) * timedelta f));
          [left|]; nia.
      - destruct (Z.le_gt_cases rc' 0) as [?|Hpos]; [lia|].
        specialize (Hlow Hpos). nia. }
    subst rc'. repeat split; try assumption.
    intros Hone. rewrite ran_0_new in Hcount.
    rewrite (Hcount Hone). f_equal; lia.
Qed.

End Ledger.

(** ** One-shot schedules and cancellation *)

Lemma one_shot_visit_due :
  forall now T s,
    frequency_sec s < 1 ->
    is_canceled s = false ->
    run_count s = 0 ->
    now <= start s ->
    start s <= T ->
    visit_scheduler now T s [] = (fired s, [(start s, callback s, kwargs s)]).
Proof.
  intros now T s Hf Hlive Hrc Hnow HT. unfold visit_scheduler.
  rewrite Hlive, Hrc.
  destruct (Z.ltb_spec (frequency_sec s) 1) as [_|?]; [|lia].
  destruct (Z.ltb_spec (start s) now) as [?|_]; [lia|].
  destruct (Z.gtb_spec (start s) T) as [?|_]; [lia|].
  cbn. rewrite andb_false_r. reflexivity.
Qed.

Lemma one_shot_visit_early :
  forall now T s,
    frequency_sec s < 1 ->
    T < start s ->
    visit_scheduler now T s [] = (s, []).
Proof.
  intros now T s Hf HT. unfold visit_scheduler.
  destruct (Z.ltb_spec (frequency_sec s) 1) as [_|?]; [|lia].
  destruct (Z.gtb_spec (start s) T) as [_|?]; [|lia].
  cbn [andb]. now rewrite !orb_true_r.
Qed.

Lemma canceled_one_shot_is_spent :
  forall c s,
    frequency_sec s < 1 -> is_canceled s = true -> spent_from c s.
Proof.
  intros c s Hf Hc now T _ _. unfold visit_scheduler. rewrite Hc.
  destruct (Z.ltb_spec (frequency_sec s) 1) as [_|?]; [|lia].
  reflexivity.
Qed.

Lemma fired_one_shot_is_spent :
  forall c s,
    frequency_sec s < 1 -> start s <= c -> 0 < run_count s -> spent_from c s.
Proof.
  intros c s Hf Hs Hrc now T Hc _. unfold visit_scheduler.
  destruct (Z.ltb_spec (frequency_sec s) 1) as [_|?]; [|lia].
  destruct (Z.ltb_spec (start s) now) as [_|Hge];
    [cbn [andb]; now rewrite !orb_true_r|].
  destruct (Z.eqb_spec (start s) now) as [_|?]; [|lia].
  destruct (Z.gtb_spec (run_count s) 0) as [_|?]; [|lia].
  cbn [andb]. now rewrite !orb_true_r.
Qed.

Section OneShots.

Context {W : Type} (handler : call -> M W unit).
Hypothesis handler_benign : benign handler.

(** One forward leg, seen from one record. *)
Lemma leg_of_a_record :
  forall (t : instant) (m : machine W) (h : handle) (s : Scheduler),
    simulation_time (snd m) < t ->
    sget (_schedulers (snd m)) h = Some s ->
    let r := time_travel_to handler t m in
    outcome r = inr tt /\
    simulation_time (snd (final r)) = t /\
    sget (_schedulers (snd (final r))) h
    = Some (advanced (simulation_time (snd m)) t s) /\
    (filter (has_callback (callback s)) (_schedulers (snd m)) = [(h, s)] ->
     filter (has_callback (callback s)) (_schedulers (snd (final r)))
     = [(h, advanced (simulation_time (snd m)) t s)] /\
     timer_calls_to (callback s) (calls r)
     = List.length (fires (simulation_time (snd m)) t s)).
Proof.
  intros t m h s Hlt Hget r.
  destruct (time_travel_to_benign handler handler_benign t m Hlt)
    as (Ho & Hfin & Hcalls).
  fold r in Ho, Hfin, Hcalls. rewrite Hfin.
  cbn [_schedulers set_current_datetime set_schedulers simulation_time
         _current_datetime].
  repeat split; [exact Ho|now rewrite sget_map_values, Hget| |].
  - rewrite filter_has_callback_advanced, H. reflexivity.
  - rewrite Hcalls.
    rewrite (timer_calls_to_perm _ _ _
               (Permutation_map to_call (sorted_perm _))).
    apply (timer_calls_to_all_fires _ _ _ h s _ H).
Qed.

(** No journey touches or fires a spent record. *)
Lemma travel_spent :
  forall path (m : machine W) (h : handle) (s : Scheduler),
    sget (_schedulers (snd m)) h = Some s ->
    spent_from (simulation_time (snd m)) s ->
    nondecreasing_from (simulation_time (snd m)) path ->
    let r := travel handler path m in
    outcome r = inr tt /\
    simulation_time (snd (final r)) = last path (simulation_time (snd m)) /\
    sget (_schedulers (snd (final r))) h = Some s /\
    (filter (has_callback (callback s)) (_schedulers (snd m)) = [(h, s)] ->
     timer_calls_to (callback s) (calls r) = O).
Proof.
  induction path as [|t rest IH]; intros m h s Hget Hspent Hpath r.
  - repeat split; assumption.
  - destruct Hpath as [Hct Hrest]. rewrite last_cons.
    destruct (Z.eq_dec t (simulation_time (snd m))) as [Heq|Hne].
    + subst t. unfold r.
      rewrite travel_cons by (rewrite time_travel_to_same; reflexivity).
      rewrite time_travel_to_same by reflexivity.
      cbn [ret final calls outcome app].
      apply IH; assumption.
    + assert (Hlt : simulation_time (snd m) < t) by lia.
      destruct (leg_of_a_record t m h s Hlt Hget)
        as (Ho & Hclock & Hget' & Hone').
      unfold advanced, fires in Hget', Hone'.
      rewrite (Hspent _ t (Z.le_refl _) Hct) in Hget', Hone'.
      cbn [fst snd List.length] in Hget', Hone'.
      unfold r. rewrite travel_cons by exact Ho.
      cbn zeta. cbn [outcome final calls].
      set (m' := final (time_travel_to handler t m)) in *.
      assert (Hspent' : spent_from (simulation_time (snd m')) s).
      { rewrite Hclock. intros now T Hn HT. apply Hspent; lia. }
      rewrite <- Hclock in Hrest.
      destruct (IH m' h s Hget' Hspent' Hrest) as (Ho' & Hc' & Hg' & Hcount).
      rewrite Hclock in Hc'. repeat split; try assumption.
      intros Hone. destruct (Hone' Hone) as [Hf' Hn'].
      rewrite timer_calls_to_app, Hn', (Hcount Hf'). reflexivity.
Qed.

(** X6.  A one-shot schedule registered for an instant not before the
    clock fires exactly once on any journey that never goes back: at the
    first advance that moves the clock to or past its anchor, and on no
    advance after that, also not on one that starts at the anchor.  A
    journey that stops short of the anchor, or never moves the clock, leaves
    it waiting. *)
Theorem one_shot_fires_once_on_a_journey :
  forall (h : handle) (anchor f : Z) (cb : callable) (kw : kwargs_t)
         (path : list instant) (m : machine W),
    f < 1 ->
    sget (_schedulers (snd m)) h = Some (new_Scheduler anchor f cb kw) ->
    simulation_time (snd m) <= anchor ->
    nondecreasing_from (simulation_time (snd m)) path ->
    let c := last path (simulation_time (snd m)) in
    let reached := (anchor <=? c) && (simulation_time (snd m) <? c) in
    let r := travel handler path m in
    outcome r = inr tt /\
    simulation_time (snd (final r)) = c /\
    sget (_schedulers (snd (final r))) h
    = Some (if reached then fired (new_Scheduler anchor f cb kw)
            else new_Scheduler anchor f cb kw) /\
    (filter (has_callback cb) (_schedulers (snd m))
     = [(h, new_Scheduler anchor f cb kw)] ->
     timer_calls_to cb (calls r) = if reached then 1%nat else O).
Proof.
  intros h anchor f cb kw path m Hf. set (s0 := new_Scheduler anchor f cb kw).
  revert m. induction path as [|t rest IH]; intros m Hget Hc0 Hpath c reached r.
  - unfold reached, c. cbn [last]. rewrite Z.ltb_irrefl, andb_false_r.
    repeat split; assumption.
  - destruct Hpath as [Hct Hrest].
    assert (Hc : c = last rest t) by apply last_cons.
    pose proof (nondecreasing_last _ _ Hrest) as Hlast. rewrite <- Hc in Hlast.
    destruct (Z.eq_dec t (simulation_time (snd m))) as [Heq|Hne].
    + subst t. unfold r.
      rewrite travel_cons by (rewrite time_travel_to_same; reflexivity).
      rewrite time_travel_to_same by reflexivity.
      cbn [ret final calls outcome app].
      destruct (IH m Hget Hc0 Hrest) as (Ho & Hclk & Hg & Hcount).
      unfold reached. rewrite Hc. repeat split; assumption.
    + assert (Hlt : simulation_time (snd m) < t) by lia.
      destruct (leg_of_a_record t m h s0 Hlt Hget)
        as (Ho & Hclock & Hget' & Hone').
      change (callback s0) with cb in Hone'.
      unfold r. rewrite travel_cons by exact Ho.
      cbn zeta. cbn [outcome final calls].
      set (m' := final (time_travel_to handler t m)) in *.
      rewrite <- Hclock in Hrest.
      assert (Hc' : c = last rest (simulation_time (snd m')))
        by (rewrite Hclock; exact Hc).
      destruct (Z.le_gt_cases anchor t) as [Hdue|Hearly].
      * (* the leg reaches the anchor: the one-shot fires, and is spent *)
        unfold advanced, fires in Hget', Hone'.
        rewrite (one_shot_visit_due _ t s0 Hf eq_refl eq_refl Hc0 Hdue)
          in Hget', Hone'.
        cbn [fst snd List.length] in Hget', Hone'.
        assert (Hspent : spent_from (simulation_time (snd m')) (fired s0)).
        { apply fired_one_shot_is_spent; [exact Hf| |reflexivity].
          rewrite Hclock. exact Hdue. }
        destruct (travel_spent rest m' h (fired s0) Hget' Hspent Hrest)
          as (Ho' & Hclk & Hg & Hcount).
        change (callback (fired s0)) with cb in Hcount.
        assert (Hr : reached = true).
        { unfold reached. apply andb_true_iff. split.
          - apply Z.leb_le. lia.
          - apply Z.ltb_lt. lia. }
        rewrite Hr, Hc'. repeat split; try assumption.
        intros Hone. destruct (Hone' Hone) as [Hf' Hn'].
        rewrite timer_calls_to_app, Hn', (Hcount Hf'). reflexivity.
      * (* the leg stops short of the anchor: the one-shot waits *)
        unfold advanced, fires in Hget', Hone'.
        rewrite (one_shot_visit_early _ t s0 Hf Hearly) in Hget', Hone'.
        cbn [fst snd List.length] in Hget', Hone'.
        assert (Hc0' : simulation_time (snd m') <= anchor)
          by (rewrite Hclock; lia).
        destruct (IH m' Hget' Hc0' Hrest) as (Ho' & Hclk & Hg & Hcount).
        assert (Hr : reached
                     = (anchor <=? last rest (simulation_time (snd m')))
                       && (simulation_time (snd m')
                           <? last rest (simulation_time (snd m')))).
        { unfold reached. rewrite <- Hc'. rewrite Hclock.
          destruct (Z.leb_spec anchor c) as [Hac|Hac]; cbn [andb];
            [|reflexivity].
          destruct (Z.ltb_spec (simulation_time (snd m)) c) as [_|?]; [|lia].
          destruct (Z.ltb_spec t c) as [_|?]; [reflexivity|lia]. }
        rewrite Hr, Hc'. repeat split; try assumption.
        intros Hone. destruct (Hone' Hone) as [Hf' Hn'].
        rewrite timer_calls_to_app, Hn', (Hcount Hf'). reflexivity.
Qed.

End OneShots.



Lemma cancel_timer_known :
  forall W (m : machine W) (h : handle) s,
    sget (_schedulers (snd m)) h = Some s ->
    _se_cancel_timer (Some h) m
    = mkRes (inr tt)
        (fst m, set_schedulers (sset (_schedulers (snd m)) h (cancel s)) (snd m))
        [].
Proof.
  intros W m h s H. unfold _se_cancel_timer. rewrite bind_get_driver, H.
  reflexivity.
Qed.


Lemma run_every_loop_cancel :
  forall fuel now T next_ s due,
    run_every_loop fuel now T next_ (cancel s) due
    = (cancel (fst (run_every_loop fuel now T next_ s due)),
       snd (run_every_loop fuel now T next_ s due)).
Proof.
  induction fuel as [|fuel IH]; intros now T next_ s due;
    cbn [run_every_loop]; [reflexivity|].
  destruct (next_ <=? T); [|reflexivity].
  destruct (next_ >=? now); [|apply IH].
  cbn [cancel frequency_sec callback kwargs last_run].
  rewrite <- IH. reflexivity.
Qed.

(** X8.  The canceled flag is read for one-shot schedules only: a
    repeating schedule that was canceled is visited like one that was not,
    it queues the same entries and counts the same runs, so [cancel_timer]
    does not stop it. *)
Theorem cancel_does_not_stop_a_repeating_schedule :
  forall (now T : instant) (s : Scheduler),
    1 <= frequency_sec s ->
    fires now T (cancel s) = fires now T s /\
    advanced now T (cancel s) = cancel (advanced now T s).
Proof.
  intros now T s Hf. unfold fires, advanced, visit_scheduler.
  cbn [cancel frequency_sec last_run].
  destruct (Z.ltb_spec (frequency_sec s) 1) as [?|_]; [lia|]. cbn [andb].
  change {| start := start s; frequency_sec := frequency_sec s;
            callback := callback s; kwargs := kwargs s;
            run_count := run_count s; last_run := last_run s;
            is_canceled := true |} with (cancel s).
  rewrite run_every_loop_cancel. split; reflexivity.
Qed.

Section Cancellation.

Context {W : Type} (handler : call -> M W unit).
Hypothesis handler_benign : benign handler.

(** X9.  Once a one-shot schedule is canceled, no journey fires it: its
    record stays as the cancellation left it and its callable (when no
    other record has it) is not called, wherever the clock goes. *)
Theorem canceled_one_shot_never_fires :
  forall (h : handle) (s : Scheduler) (path : list instant) (m : machine W),
    sget (_schedulers (snd m)) h = Some s ->
    frequency_sec s < 1 ->
    nondecreasing_from (simulation_time (snd m)) path ->
    let canceled := _se_cancel_timer (Some h) m in
    let r := travel handler path (final canceled) in
    outcome canceled = inr tt /\
    outcome r = inr tt /\
    sget (_schedulers (snd (final r))) h = Some (cancel s) /\
    (filter (has_callback (callback s)) (_schedulers (snd m)) = [(h, s)] ->
     timer_calls_to (callback s) (calls r) = O).
Proof.
  intros h s path m Hget Hf Hpath canceled r.
  unfold r, canceled. rewrite (cancel_timer_known W m h s Hget).
  cbn [outcome final].
  set (m' := (fst m, set_schedulers (sset (_schedulers (snd m)) h (cancel s))
                       (snd m))).
  assert (Hget' : sget (_schedulers (snd m')) h = Some (cancel s))
    by (cbn; now rewrite sget_sset, String.eqb_refl).
  assert (Hspent : spent_from (simulation_time (snd m')) (cancel s))
    by (apply canceled_one_shot_is_spent; [exact Hf|reflexivity]).
  destruct (travel_spent handler handler_benign path m' h (cancel s)
              Hget' Hspent Hpath) as (Ho & _ & Hg & Hcount).
  repeat split; try assumption.
  intros Hone. apply Hcount.
  cbn [snd m' _schedulers set_schedulers cancel callback].
  apply (filter_has_callback_sset _ _ h s); [exact Hget|reflexivity|exact Hone].
Qed.

End Cancellation.

(** ** Registration *)

Section Registration.

Context {W : Type} (uuid4_draw : W -> string * W).

Lemma _set_scheduler_registers :
  forall start_ f cb kw (m : machine W),
    registers uuid4_draw (new_Scheduler start_ f cb kw) m
      (_set_scheduler uuid4_draw start_ f cb kw m).
Proof.
  intros start_ f cb kw m. unfold registers, _set_scheduler, bind, uuid4.
  destruct (uuid4_draw (fst m)) as [u w].
  cbn [outcome final calls fst snd modify_driver ret app _schedulers
         set_schedulers].
  repeat split.
  - rewrite sget_sset, String.eqb_refl. reflexivity.
  - intros k Hk. rewrite sget_sset.
    destruct (String.eqb_spec u k); [congruence|reflexivity].
Qed.

Lemma wrapped_registers :
  forall s (fn : M W handle) (m : machine W),
    update_states (snd m) = true ->
    (exists h, outcome (fn m) = inr h) ->
    registers uuid4_draw s m (fn m) ->
    registers uuid4_draw s m (possible_side_effects_state_change fn m).
Proof.
  intros s fn m Hup [h Hh] Hreg. unfold possible_side_effects_state_change.
  rewrite bind_get_driver, Hup. rewrite (bind_ok _ _ _ _ _ h Hh).
  unfold registers in *. cbn [final calls ret].
  rewrite app_nil_r. exact Hreg.
Qed.

(** X10.  On a driver that updates states every registration draws one
    identifier and stores a fresh record under it (run count 0, next due at
    the anchor, not canceled), replacing a record that had the same
    identifier and leaving every other record alone; nothing is called.  The
    period is 0 for [run_at]/[run_once] and [run_in], whose anchor is the
    clock plus the delay, the given interval for [run_every], and 86400,
    3600 and 60 seconds for [run_daily], [run_hourly] and
    [run_minutely]. *)
Theorem registrations_store_their_record :
  forall (m : machine W) (cb : callable) (start_ : instant)
         (delay interval : Z) (kw : kwargs_t),
    update_states (snd m) = true ->
    registers uuid4_draw (new_Scheduler start_ 0 cb kw) m
      (_se_run_at uuid4_draw cb start_ kw m) /\
    registers uuid4_draw
      (new_Scheduler (simulation_time (snd m) + timedelta delay) 0 cb kw) m
      (_se_run_in uuid4_draw cb delay kw m) /\
    registers uuid4_draw (new_Scheduler start_ interval cb kw) m
      (_se_run_every uuid4_draw cb start_ interval kw m) /\
    registers uuid4_draw (new_Scheduler start_ 86400 cb kw) m
      (_se_run_daily uuid4_draw cb start_ kw m) /\
    registers uuid4_draw (new_Scheduler start_ 3600 cb kw) m
      (_se_run_hourly uuid4_draw cb start_ kw m) /\
    registers uuid4_draw (new_Scheduler start_ 60 cb kw) m
      (_se_run_minutely uuid4_draw cb start_ kw m).
Proof.
  intros m cb start_ delay interval kw Hup.
  split; [|split; [|split; [|split; [|split]]]].
  1, 3-6: apply wrapped_registers;
    [exact Hup
    |eexists; apply _set_scheduler_returns
    |apply _set_scheduler_registers].
  unfold _se_run_in. apply wrapped_registers; [exact Hup| |];
    rewrite bind_get_driver.
  - eexists; apply _set_scheduler_returns.
  - apply _set_scheduler_registers.
Qed.

End Registration.

(** ** Further properties of the state store *)

Section DictFacts.

Context {K V : Type} (eqb : K -> K -> bool).
Hypothesis eqb_eq : forall a b, eqb a b = true <-> a = b.

Lemma dict_get_set :
  forall (d : dict K V) k v k',
    dict_get eqb (dict_set eqb d k v) k'
    = if eqb k k' then Some v else dict_get eqb d k'.
Proof.
  intros d k v k'; induction d as [|[k0 v0] d IH]; [reflexivity|].
  cbn [dict_set]. destruct (eqb k0 k) eqn:E; cbn [dict_get].
  - apply eqb_eq in E. subst k0. destruct (eqb k k'); reflexivity.
  - rewrite IH. destruct (eqb k0 k') eqn:E'; [|reflexivity].
    destruct (eqb k k') eqn:E''; [|reflexivity].
    apply eqb_eq in E', E''. subst k0 k'.
    assert (eqb k k = true) by now apply eqb_eq. congruence.
Qed.

Lemma dict_get_default_touch :
  forall dflt (d : dict K V) k k',
    dict_get_default eqb dflt (dict_touch eqb dflt d k) k'
    = dict_get_default eqb dflt d k'.
Proof.
  intros dflt d k k'. unfold dict_get_default, dict_touch.
  destruct (dict_get eqb d k) eqn:Hget; [reflexivity|].
  rewrite dict_get_set. destruct (eqb k k') eqn:E; [|reflexivity].
  apply eqb_eq in E. subst k'. now rewrite Hget.
Qed.

Lemma dict_touch_touch :
  forall dflt (d : dict K V) k,
    dict_touch eqb dflt (dict_touch eqb dflt d k) k = dict_touch eqb dflt d k.
Proof.
  intros dflt d k. unfold dict_touch at 1.
  destruct (dict_get eqb (dict_touch eqb dflt d k) k) eqn:Hget;
    [reflexivity|].
  unfold dict_touch in Hget.
  destruct (dict_get eqb d k) eqn:Hd; [congruence|].
  rewrite dict_get_set in Hget.
  assert (E : eqb k k = true) by now apply eqb_eq.
  rewrite E in Hget. discriminate.
Qed.

End DictFacts.

Lemma option_string_eqb_eq :
  forall a b, option_string_eqb a b = true <-> a = b.
Proof.
  intros [a|] [b|]; cbn; try (split; [discriminate|congruence]);
    [|split; reflexivity].
  rewrite String.eqb_eq. split; congruence.
Qed.

Lemma spies_of_read :
  forall domain entity d key,
    spies_of (set_state_spys (spys_read domain entity d) d) key
    = spies_of d key.
Proof.
  intros domain entity d key. unfold spies_of, spys_read.
  cbn [_state_spys set_state_spys].
  now rewrite !(dict_get_default_touch _ option_string_eqb_eq).
Qed.

Lemma state_entry_only_states :
  forall d d' e, _states d' = _states d -> state_entry d' e = state_entry d e.
Proof. intros d d' e H. unfold state_entry. now rewrite H. Qed.

Lemma state_entry_stored :
  forall entity attribute_name v d e,
    dict_get_default String.eqb default_entry
      (stored entity attribute_name v d) e
    = if String.eqb entity e
      then sset (state_entry d entity) attribute_name v
      else state_entry d e.
Proof.
  intros entity attribute_name v d e. unfold stored, dict_get_default.
  change (dict_get String.eqb
            (sset (dict_touch String.eqb default_entry (_states d) entity)
               entity (sset (state_entry d entity) attribute_name v)) e)
    with (sget (sset (dict_touch String.eqb default_entry (_states d) entity)
                  entity (sset (state_entry d entity) attribute_name v)) e).
  rewrite sget_sset. destruct (String.eqb entity e); [reflexivity|].
  apply (state_entry_touch d entity e).
Qed.

Lemma attr_get_sset :
  forall entry a v a',
    attr_get (sset entry a v) a'
    = if String.eqb a a' then v else attr_get entry a'.
Proof.
  intros entry a v a'. unfold attr_get, dict_get_default.
  change (dict_get String.eqb (sset entry a v) a')
    with (sget (sset entry a v) a').
  rewrite sget_sset. destruct (String.eqb a a'); reflexivity.
Qed.

Lemma split_on_two_contains :
  forall s d o, split_on dot s = [d; o] -> contains dot s = true.
Proof.
  intros s d o H. destruct (contains dot s) eqn:E; [reflexivity|].
  rewrite (split_on_without_sep _ _ E) in H. discriminate.
Qed.

Lemma py_eq_refl : forall v, py_eq v v = true.
Proof.
  intros [|b|z|s]; cbn.
  - reflexivity.
  - now destruct b.
  - apply Z.eqb_refl.
  - apply String.eqb_refl.
Qed.

Section Notification.

Context {W : Type} (handler : call -> M W unit).

Lemma touch_spys_run :
  forall key (m : machine W),
    touch_spys key m
    = mkRes (inr (dict_get_default option_string_eqb [] (_state_spys (snd m))
                    key))
        (fst m,
         set_state_spys (dict_touch option_string_eqb [] (_state_spys (snd m))
                           key) (snd m)) [].
Proof.
  intros key m. unfold touch_spys.
  rewrite bind_modify_driver, bind_get_driver.
  cbn [snd _state_spys set_state_spys ret].
  now rewrite (dict_get_default_touch _ option_string_eqb_eq).
Qed.

(** [set_state] up to its comparison of the old and the new value. *)
Lemma set_state_equal :
  forall entity domain object_id state attribute_name previous trigger kw
         (m : machine W),
    split_on dot entity = [domain; object_id] ->
    py_eq (py_or previous
             (attr_get (state_entry (snd m) entity) attribute_name)) state
    = true ->
    set_state handler entity state attribute_name previous trigger kw m
    = mkRes (inr tt)
        (fst m,
         set_states (dict_touch String.eqb default_entry (_states (snd m))
                       entity) (snd m)) [].
Proof.
  intros entity domain object_id state attribute_name previous trigger kw m
    Hsplit Heq.
  unfold set_state. rewrite bind_get_driver, Hsplit.
  unfold touch_state. rewrite bind_modify_driver, bind_get_driver.
  cbn [fst snd]. rewrite state_entry_touch, Heq. reflexivity.
Qed.

(** [set_state] of a changed value when it is not to trigger. *)
Lemma set_state_silent :
  forall entity domain object_id state attribute_name previous trigger kw
         (m : machine W),
    split_on dot entity = [domain; object_id] ->
    py_eq (py_or previous
             (attr_get (state_entry (snd m) entity) attribute_name)) state
    = false ->
    match trigger with
    | None => negb (_setup_active (snd m))
    | Some t => t
    end = false ->
    set_state handler entity state attribute_name previous trigger kw m
    = mkRes (inr tt)
        (fst m,
         set_states (stored entity attribute_name state (snd m)) (snd m)) [].
Proof.
  intros entity domain object_id state attribute_name previous trigger kw m
    Hsplit Hne Htrig.
  unfold set_state. rewrite bind_get_driver, Hsplit.
  unfold touch_state. rewrite bind_modify_driver, bind_get_driver.
  cbn [fst snd]. rewrite state_entry_touch, Hne.
  unfold store_attr. rewrite bind_modify_driver. cbn [fst snd].
  rewrite Htrig. cbn [negb ret].
  unfold stored. rewrite state_entry_touch. reflexivity.
Qed.

Hypothesis handler_benign : benign handler.

Lemma notify_benign :
  forall entity attribute_name prev_state old_value new_value kw spy
         (m : machine W),
    let r := notify handler entity attribute_name prev_state old_value
               new_value kw spy m in
    outcome r = inr tt /\
    snd (final r) = snd m /\
    calls r
    = if spy_matches attribute_name old_value new_value spy
      then [spy_call entity attribute_name prev_state
              (state_entry (snd m) entity) old_value new_value kw spy]
      else [].
Proof.
  intros entity attribute_name prev_state old_value new_value kw spy m r.
  unfold r, notify. rewrite bind_get_driver.
  unfold spy_matches, spy_call.
  destruct (filter_ok (spy_old spy) old_value),
           (filter_ok (spy_new spy) new_value),
           (spy_attribute spy =? attribute_name)%string,
           (spy_attribute spy =? "all")%string;
    cbn [andb orb]; try (repeat split; reflexivity);
    unfold invoke; cbn [outcome final calls];
    match goal with
    | |- context [handler ?c m] =>
        destruct (handler_benign c m) as (Ho & Hd & Hc)
    end;
    rewrite Ho, Hd, Hc; repeat split.
Qed.

Lemma for_each_notify_benign :
  forall entity attribute_name prev_state old_value new_value kw spies
         (m : machine W),
    let r := for_each spies
               (notify handler entity attribute_name prev_state old_value
                  new_value kw) m in
    outcome r = inr tt /\
    snd (final r) = snd m /\
    calls r
    = map (spy_call entity attribute_name prev_state
             (state_entry (snd m) entity) old_value new_value kw)
        (filter (spy_matches attribute_name old_value new_value) spies).
Proof.
  intros entity attribute_name prev_state old_value new_value kw.
  induction spies as [|spy spies IH]; intros m; cbn zeta;
    [repeat split|].
  cbn [for_each].
  destruct (notify_benign entity attribute_name prev_state old_value
              new_value kw spy m) as (Ho & Hd & Hc).
  rewrite (bind_ok _ _ _ _ _ tt Ho). cbn [outcome final calls].
  destruct (IH (final (notify handler entity attribute_name prev_state
                         old_value new_value kw spy m)))
    as (Ho' & Hd' & Hc').
  rewrite Ho', Hd', Hc', Hd, Hc. cbn [filter].
  destruct (spy_matches attribute_name old_value new_value spy);
    repeat split.
Qed.

(** [set_state] of a changed value when it is to trigger. *)
Lemma set_state_notifies :
  forall entity domain object_id state attribute_name previous trigger kw
         (m : machine W),
    split_on dot entity = [domain; object_id] ->
    let prev_state := state_entry (snd m) entity in
    let old_value := py_or previous (attr_get prev_state attribute_name) in
    py_eq old_value state = false ->
    match trigger with
    | None => negb (_setup_active (snd m))
    | Some t => t
    end = true ->
    let r := set_state handler entity state attribute_name previous trigger
               kw m in
    outcome r = inr tt /\
    snd (final r)
    = set_state_spys (spys_read domain entity (snd m))
        (set_states (stored entity attribute_name state (snd m)) (snd m)) /\
    calls r
    = map (spy_call entity attribute_name prev_state
             (sset prev_state attribute_name state) old_value state kw)
        (filter (spy_matches attribute_name old_value state)
           (spies_of (snd m) domain ++ spies_of (snd m) entity)).
Proof.
  intros entity domain object_id state attribute_name previous trigger kw m
    Hsplit prev_state old_value Hne Htrig r.
  unfold r, set_state. rewrite bind_get_driver, Hsplit.
  unfold touch_state. rewrite bind_modify_driver, bind_get_driver.
  cbn [fst snd]. rewrite state_entry_touch.
  fold prev_state. fold old_value. rewrite Hne.
  unfold store_attr. rewrite bind_modify_driver. cbn [fst snd].
  rewrite Htrig. cbn [negb].
  rewrite (bind_ok _ _ _ _ _ _ ltac:(rewrite touch_spys_run; reflexivity)).
  rewrite touch_spys_run. cbn [outcome final calls app fst snd].
  rewrite (bind_ok _ _ _ _ _ _ ltac:(rewrite touch_spys_run; reflexivity)).
  rewrite touch_spys_run. cbn [outcome final calls app fst snd].
  cbn [_state_spys set_state_spys set_states].
  rewrite (dict_get_default_touch _ option_string_eqb_eq).
  match goal with
  | |- context [for_each ?l ?f ?st] =>
      destruct (for_each_notify_benign entity attribute_name prev_state
                  old_value state kw l st) as (Ho & Hd & Hc)
  end.
  rewrite Ho, Hd, Hc. cbn [snd].
  repeat split.
  - unfold spys_read, stored. rewrite state_entry_touch. reflexivity.
  - match goal with
    | |- context [spy_call _ _ _ (state_entry ?d entity)] =>
        assert (Hst : state_entry d entity
                      = sset prev_state attribute_name state)
    end.
    { unfold state_entry at 1. cbn [_states set_state_spys set_states].
      rewrite state_entry_touch.
      change (dict_get_default String.eqb default_entry
                (stored entity attribute_name state (snd m)) entity
              = sset prev_state attribute_name state).
      rewrite state_entry_stored, String.eqb_refl. reflexivity. }
    rewrite Hst. reflexivity.
Qed.


(** What [set_state] leaves to be read, in each of its three cases. *)
Lemma set_state_reads :
  forall entity domain object_id state attribute_name previous trigger kw
         (m : machine W),
    split_on dot entity = [domain; object_id] ->
    let prev_state := state_entry (snd m) entity in
    let old_value := py_or previous (attr_get prev_state attribute_name) in
    let r := set_state handler entity state attribute_name previous trigger
               kw m in
    outcome r = inr tt /\
    (forall e,
       state_entry (snd (final r)) e
       = if py_eq old_value state then state_entry (snd m) e
         else if String.eqb entity e
              then sset prev_state attribute_name state
              else state_entry (snd m) e) /\
    (forall key, spies_of (snd (final r)) key = spies_of (snd m) key) /\
    _schedulers (snd (final r)) = _schedulers (snd m) /\
    simulation_time (snd (final r)) = simulation_time (snd m) /\
    _setup_active (snd (final r)) = _setup_active (snd m).
Proof.
  intros entity domain object_id state attribute_name previous trigger kw m
    Hsplit prev_state old_value r.
  destruct (py_eq old_value state) eqn:Heq.
  - unfold r.
    rewrite (set_state_equal _ _ _ _ _ _ _ _ _ Hsplit Heq).
    cbn [outcome final snd]. repeat split.
    intros e. apply state_entry_touch.
  - destruct (match trigger with
              | None => negb (_setup_active (snd m))
              | Some t => t
              end) eqn:Htrig.
    + destruct (set_state_notifies entity domain object_id state
                  attribute_name previous trigger kw m Hsplit Heq Htrig)
        as (Ho & Hfin & _).
      fold r in Ho, Hfin. rewrite Hfin. repeat split; [exact Ho| |].
      * intros e. unfold state_entry at 1.
        cbn [_states set_state_spys set_states]. apply state_entry_stored.
      * intros key. unfold spies_of at 1.
        cbn [_state_spys set_state_spys set_states]. unfold spys_read.
        now rewrite !(dict_get_default_touch _ option_string_eqb_eq).
    + unfold r.
      rewrite (set_state_silent _ _ _ _ _ _ _ _ _ Hsplit Heq Htrig).
      cbn [outcome final snd]. repeat split.
      intros e. unfold state_entry at 1. cbn [_states set_states].
      apply state_entry_stored.
Qed.

End Notification.

Lemma get_state_qualified :
  forall W entity attribute default (m : machine W),
    contains dot entity = true ->
    let entry := state_entry (snd m) entity in
    let mapped := if negb (attribute =? "all")%string
                  then Val (attr_get entry attribute)
                  else Attrs entry in
    _se_get_state entity attribute default m
    = mkRes (inr (One match default with
                      | PNone => mapped
                      | _ => if obj_truthy mapped then mapped
                             else Val default
                      end))
        (fst m,
         set_states (dict_touch String.eqb default_entry (_states (snd m))
                       entity) (snd m)) [].
Proof.
  intros W entity attribute default m Hdot entry mapped.
  unfold _se_get_state. rewrite Hdot.
  set (look := bind (touch_state entity) _).
  assert (Hlook : look m
                  = mkRes (inr (sset [] entity entry))
                      (fst m,
                       set_states (dict_touch String.eqb default_entry
                                     (_states (snd m)) entity) (snd m)) []).
  { unfold look, touch_state. rewrite bind_modify_driver, bind_get_driver.
    cbn [fst snd ret]. now rewrite state_entry_touch. }
  rewrite (bind_ok _ _ _ _ _ (sset [] entity entry))
    by (rewrite Hlook; reflexivity).
  rewrite Hlook. cbn [outcome final calls app].
  unfold mapped.
  destruct default; destruct (negb (attribute =? "all")%string);
    cbn [sset dict_set map_values map fst snd];
    unfold sget; cbn [dict_get]; rewrite String.eqb_refl;
    try reflexivity;
    match goal with
    | |- context [obj_truthy ?o] => destruct (obj_truthy o); reflexivity
    end.
Qed.

Lemma listen_state_run :
  forall W (uuid4_draw : W -> string * W) cb key attribute new old kw
         (m : machine W),
    _se_listen_state uuid4_draw cb key attribute new old kw m
    = mkRes (inr (fst (uuid4_draw (fst m))))
        (snd (uuid4_draw (fst m)),
         set_state_spys
           (dict_set option_string_eqb
              (dict_touch option_string_eqb [] (_state_spys (snd m)) key) key
              (dict_get_default option_string_eqb [] (_state_spys (snd m)) key
               ++ [listener cb attribute new old kw]))
           (snd m)) [].
Proof.
  intros W uuid4_draw cb key attribute new old kw m.
  unfold _se_listen_state.
  rewrite (bind_ok _ _ _ _ _ _ ltac:(rewrite touch_spys_run; reflexivity)).
  rewrite touch_spys_run. cbn [outcome final calls app].
  rewrite (bind_ok _ _ _ _ _ tt) by reflexivity.
  cbn [outcome final calls app modify_driver fst snd _state_spys
         set_state_spys].
  unfold uuid4. cbn [fst snd]. destruct (uuid4_draw (fst m)) as [u w].
  cbn [outcome final calls fst snd]. destruct m as [w0 []]. reflexivity.
Qed.

Section StoreTheorems.

Context {W : Type} (handler : call -> M W unit).

(** X11.  Inside [with self.setup():] a [set_state] that leaves its
    trigger open calls no listener, whatever is registered: it stores the
    new value when it differs from the old one, and after the block the
    setup flag is off. *)
Theorem set_state_in_setup_is_silent :
  forall (entity domain object_id : string) (state : pyval)
         (attribute_name : string) (previous : pyval) (kw : kwargs_t)
         (m : machine W),
    split_on dot entity = [domain; object_id] ->
    let prev_state := state_entry (snd m) entity in
    let old_value := py_or previous (attr_get prev_state attribute_name) in
    let r := with_setup
               (set_state handler entity state attribute_name previous None kw)
               m in
    outcome r = inr tt /\
    calls r = [] /\
    _setup_active (snd (final r)) = false /\
    forall e,
      state_entry (snd (final r)) e
      = if py_eq old_value state then state_entry (snd m) e
        else if String.eqb entity e
             then sset prev_state attribute_name state
             else state_entry (snd m) e.
Proof.
  intros entity domain object_id state attribute_name previous kw m Hsplit
    prev_state old_value r.
  unfold r, with_setup, setup_before_yield.
  rewrite bind_modify_driver.
  set (m1 := (fst m, set_setup_active true (snd m))).
  assert (Hentry : forall e, state_entry (snd m1) e = state_entry (snd m) e)
    by reflexivity.
  destruct (py_eq old_value state) eqn:Heq.
  - rewrite (set_state_equal handler entity domain object_id state
               attribute_name previous None kw m1 Hsplit)
      by (rewrite Hentry; exact Heq).
    cbn [outcome final calls setup_exit setup_after_yield modify_driver
           snd fst app _setup_active set_setup_active].
    repeat split. intros e.
    exact (state_entry_touch (snd m) entity e).
  - rewrite (set_state_silent handler entity domain object_id state
               attribute_name previous None kw m1 Hsplit)
      by (try (rewrite Hentry; exact Heq); reflexivity).
    cbn [outcome final calls setup_exit setup_after_yield modify_driver
           snd fst app _setup_active set_setup_active].
    repeat split. intros e.
    exact (state_entry_stored entity attribute_name state (snd m) e).
Qed.

Hypothesis handler_benign : benign handler.


(** X13.  After [set_state] without a forced previous value,
    [get_state] of the same entity and attribute returns a value equal to
    the one set: the value itself when it replaced a different one, the
    stored one when that was already equal.  No other entity reads
    differently. *)
Theorem get_state_after_set_state :
  forall (entity domain object_id : string) (state : pyval)
         (attribute_name : string) (trigger : option bool) (kw : kwargs_t)
         (m : machine W),
    split_on dot entity = [domain; object_id] ->
    (attribute_name =? "all")%string = false ->
    let old_value := attr_get (state_entry (snd m) entity) attribute_name in
    let m' := final (set_state handler entity state attribute_name PNone
                       trigger kw m) in
    let v := if py_eq old_value state then old_value else state in
    outcome (_se_get_state entity attribute_name PNone m') = inr (One (Val v)) /\
    py_eq v state = true /\
    forall e, e <> entity ->
              state_entry (snd m') e = state_entry (snd m) e.
Proof.
  intros entity domain object_id state attribute_name trigger kw m Hsplit
    Hattr old_value m' v.
  destruct (set_state_reads handler handler_benign entity domain object_id
              state attribute_name PNone trigger kw m Hsplit)
    as (_ & Hentry & _).
  cbn zeta in Hentry. cbn [py_or truthy] in Hentry.
  fold old_value m' in Hentry.
  rewrite (get_state_qualified W entity attribute_name PNone m'
             (split_on_two_contains _ _ _ Hsplit)).
  cbn [outcome]. rewrite Hattr. cbn [negb]. rewrite Hentry. unfold v.
  destruct (py_eq old_value state) eqn:Heq.
  - repeat split; [exact Heq|]. intros e He. apply Hentry.
  - rewrite String.eqb_refl, attr_get_sset, String.eqb_refl.
    repeat split; [apply py_eq_refl|].
    intros e He. rewrite Hentry.
    destruct (String.eqb_spec entity e); [congruence|reflexivity].
Qed.


End StoreTheorems.

(** X15.  [get_state] of an identifier with a separator never fails and
    calls nothing: for an attribute other than ["all"] it returns the stored
    value, [None] when the entity or the attribute is not there, and the
    default in place of a falsy value ([None], [False], [0], [""]) when a
    default is given.  The read may create the entity's default entry, but
    every entity reads as before, and the same read again returns the same
    and changes nothing more. *)
Theorem get_state_of_an_entity :
  forall W (entity attribute : string) (default : pyval) (m : machine W),
    contains dot entity = true ->
    (attribute =? "all")%string = false ->
    let g := _se_get_state entity attribute default m in
    outcome g
    = inr (One (Val (or_default default
                       (attr_get (state_entry (snd m) entity) attribute)))) /\
    calls g = [] /\
    (forall e, state_entry (snd (final g)) e = state_entry (snd m) e) /\
    _se_get_state entity attribute default (final g)
    = mkRes (outcome g) (final g) [].
Proof.
  intros W entity attribute default m Hdot Hattr g.
  assert (Hg : g = mkRes
                     (inr (One (Val (or_default default
                                       (attr_get (state_entry (snd m) entity)
                                          attribute)))))
                     (fst m,
                      set_states (dict_touch String.eqb default_entry
                                    (_states (snd m)) entity) (snd m)) []).
  { unfold g. rewrite (get_state_qualified W entity attribute default m Hdot).
    rewrite Hattr. cbn [negb obj_truthy]. unfold or_default.
    destruct default; try reflexivity;
      destruct (truthy (attr_get (state_entry (snd m) entity) attribute));
      reflexivity. }
  rewrite Hg. cbn [outcome final calls snd].
  repeat split.
  - intros e. apply state_entry_touch.
  - rewrite (get_state_qualified W entity attribute default _ Hdot).
    rewrite Hattr. cbn [negb obj_truthy fst snd _states set_states].
    rewrite state_entry_touch.
    rewrite (dict_touch_touch _ String.eqb_eq).
    unfold or_default.
    destruct default; try reflexivity;
      destruct (truthy (attr_get (state_entry (snd m) entity) attribute));
      reflexivity.
Qed.

Lemma spies_of_listen :
  forall W (uuid4_draw : W -> string * W) cb key attribute new old kw
         (m : machine W) k,
    spies_of
      (snd (final (_se_listen_state uuid4_draw cb key attribute new old kw m)))
      k
    = if option_string_eqb key (Some k)
      then spies_of (snd m) k ++ [listener cb attribute new old kw]
      else spies_of (snd m) k.
Proof.
  intros W uuid4_draw cb key attribute new old kw m k.
  rewrite listen_state_run. cbn [final snd]. unfold spies_of.
  cbn [_state_spys set_state_spys]. unfold dict_get_default at 1.
  rewrite (dict_get_set _ option_string_eqb_eq).
  destruct (option_string_eqb key (Some k)) eqn:E.
  - apply option_string_eqb_eq in E. now subst key.
  - apply (dict_get_default_touch _ option_string_eqb_eq).
Qed.

Section Listeners.

Context {W : Type} (handler : call -> M W unit)
  (uuid4_draw : W -> string * W).
Hypothesis handler_benign : benign handler.

(** X16.  A listener registered for an entity or for its domain is
    called by every later [set_state] on that entity that changes the value,
    triggers and passes the listener's filters, with the arguments of that
    change. *)
Theorem a_registered_listener_is_called :
  forall (cb : callable) (key : string) (attribute : option string)
         (new old : option pyval) (kw0 : kwargs_t)
         (entity domain object_id : string) (state : pyval)
         (attribute_name : string) (previous : pyval) (trigger : option bool)
         (kw : kwargs_t) (m : machine W),
    split_on dot entity = [domain; object_id] ->
    key = entity \/ key = domain ->
    let m1 := final (_se_listen_state uuid4_draw cb (Some key) attribute new
                       old kw0 m) in
    let prev_state := state_entry (snd m) entity in
    let old_value := py_or previous (attr_get prev_state attribute_name) in
    py_eq old_value state = false ->
    match trigger with
    | None => negb (_setup_active (snd m))
    | Some t => t
    end = true ->
    spy_matches attribute_name old_value state
      (listener cb attribute new old kw0) = true ->
    In (spy_call entity attribute_name prev_state
          (sset prev_state attribute_name state) old_value state kw
          (listener cb attribute new old kw0))
      (calls (set_state handler entity state attribute_name previous trigger
                kw m1)).
Proof.
  intros cb key attribute new old kw0 entity domain object_id state
    attribute_name previous trigger kw m Hsplit Hkey m1 prev_state old_value
    Hne Htrig Hmatch.
  assert (Hentry : state_entry (snd m1) entity = prev_state)
    by (unfold m1; rewrite listen_state_run; reflexivity).
  assert (Hflag : _setup_active (snd m1) = _setup_active (snd m))
    by (unfold m1; rewrite listen_state_run; reflexivity).
  destruct (set_state_notifies handler handler_benign entity domain object_id
              state attribute_name previous trigger kw m1 Hsplit)
    as (_ & _ & Hcalls).
  - rewrite Hentry. exact Hne.
  - rewrite Hflag. exact Htrig.
  - rewrite Hcalls, Hentry. fold old_value.
    apply in_map. apply filter_In. split; [|exact Hmatch].
    apply in_or_app. unfold m1. rewrite !spies_of_listen.
    destruct Hkey as [->| ->]; [right|left];
      cbn [option_string_eqb]; rewrite String.eqb_refl;
      apply in_or_app; right; now left.
Qed.

(** X17.  A listener registered under anything but the entity or its
    domain, and so one registered with no entity at all, makes no difference
    to a [set_state] on the entity: the calls are the same as without
    it. *)
Theorem a_listener_elsewhere_is_not_called :
  forall (cb : callable) (key : option string) (attribute : option string)
         (new old : option pyval) (kw0 : kwargs_t)
         (entity domain object_id : string) (state : pyval)
         (attribute_name : string) (previous : pyval) (trigger : option bool)
         (kw : kwargs_t) (m : machine W),
    split_on dot entity = [domain; object_id] ->
    key <> Some entity ->
    key <> Some domain ->
    let m1 := final (_se_listen_state uuid4_draw cb key attribute new old kw0
                       m) in
    calls (set_state handler entity state attribute_name previous trigger kw
             m1)
    = calls (set_state handler entity state attribute_name previous trigger
               kw m).
Proof.
  intros cb key attribute new old kw0 entity domain object_id state
    attribute_name previous trigger kw m Hsplit Hentity Hdomain m1.
  assert (Hentry : state_entry (snd m1) entity = state_entry (snd m) entity)
    by (unfold m1; rewrite listen_state_run; reflexivity).
  assert (Hflag : _setup_active (snd m1) = _setup_active (snd m))
    by (unfold m1; rewrite listen_state_run; reflexivity).
  assert (Hspies : forall k, key <> Some k ->
                             spies_of (snd m1) k = spies_of (snd m) k).
  { intros k Hk. unfold m1. rewrite spies_of_listen.
    destruct (option_string_eqb key (Some k)) eqn:E; [|reflexivity].
    apply option_string_eqb_eq in E. congruence. }
  destruct (py_eq (py_or previous
                     (attr_get (state_entry (snd m) entity) attribute_name))
              state) eqn:Heq.
  - rewrite (set_state_equal handler _ _ _ _ _ _ _ _ m1 Hsplit)
      by (rewrite Hentry; exact Heq).
    rewrite (set_state_equal handler _ _ _ _ _ _ _ _ m Hsplit Heq).
    reflexivity.
  - destruct (match trigger with
              | None => negb (_setup_active (snd m))
              | Some t => t
              end) eqn:Htrig.
    + destruct (set_state_notifies handler handler_benign entity domain
                  object_id state attribute_name previous trigger kw m1 Hsplit)
        as (_ & _ & Hcalls1);
        [rewrite Hentry; exact Heq|rewrite Hflag; exact Htrig|].
      destruct (set_state_notifies handler handler_benign entity domain
                  object_id state attribute_name previous trigger kw m Hsplit
                  Heq Htrig) as (_ & _ & Hcalls).
      rewrite Hcalls1, Hcalls, Hentry, !Hspies by assumption. reflexivity.
    + rewrite (set_state_silent handler _ _ _ _ _ _ _ _ m1 Hsplit)
        by (try (rewrite Hentry; exact Heq); rewrite Hflag; exact Htrig).
      rewrite (set_state_silent handler _ _ _ _ _ _ _ _ m Hsplit Heq Htrig).
      reflexivity.
Qed.

End Listeners.

(** ** Queries by domain *)

Lemma match_domain_finds :
  forall domain states acc,
    Forall (fun kv => two_parts (fst kv)) states ->
    NoDup (map fst states) ->
    exists matched,
      match_domain domain states acc = inr matched /\
      forall k,
        sget matched k
        = match (if in_domain domain k then sget states k else None) with
          | Some entry => Some entry
          | None => sget acc k
          end.
Proof.
  intros domain; induction states as [|[e st] rest IH]; intros acc Hwf Hnd.
  - exists acc. split; [reflexivity|]. intros k.
    destruct (in_domain domain k); reflexivity.
  - inversion Hwf as [|? ? (d & o & Hsplit) Hrest]; subst.
    inversion Hnd as [|? ? Hnotin Hnd']; subst.
    cbn [fst] in Hsplit. cbn [match_domain]. rewrite Hsplit.
    destruct (IH (if (d =? domain)%string then sset acc e st else acc)
                Hrest Hnd') as (matched & Hm & Hget).
    exists matched. split; [exact Hm|].
    intros k. rewrite Hget.
    assert (Hrest_e : sget rest e = None).
    { clear - Hnotin. induction rest as [|[k0 v0] rest IHr]; [reflexivity|].
      cbn [map fst] in Hnotin. unfold sget in *. cbn [dict_get].
      destruct (String.eqb_spec k0 e) as [->|_];
        [exfalso; apply Hnotin; now left|].
      apply IHr. intros Hin. apply Hnotin. now right. }
    unfold sget at 3. cbn [dict_get].
    destruct (String.eqb_spec e k) as [<-|Hne].
    + rewrite Hrest_e. unfold in_domain. rewrite Hsplit.
      destruct (d =? domain)%string; [|reflexivity].
      rewrite sget_sset, String.eqb_refl. reflexivity.
    + fold (@sget (sdict pyval) rest k).
      destruct (in_domain domain k); [destruct (sget rest k)|];
        try reflexivity;
        destruct (d =? domain)%string; try reflexivity;
        rewrite sget_sset;
        destruct (String.eqb_spec e k); congruence.
Qed.

Lemma match_domain_poisoned :
  forall domain states acc k,
    In k (map fst states) ->
    ~ two_parts k ->
    match_domain domain states acc = inl ValueError.
Proof.
  intros domain; induction states as [|[e st] rest IH]; intros acc k Hin Hbad;
    [contradiction|].
  cbn [match_domain].
  destruct (split_on dot e) as [|a [|b [|c l]]] eqn:Hsplit; try reflexivity.
  destruct Hin as [Heq|Hin].
  - cbn [fst] in Heq. subst e. exfalso. apply Hbad. now exists a, b.
  - apply (IH _ k Hin Hbad).
Qed.

Lemma keys_touch :
  forall (d : sdict (sdict pyval)) k,
    In k (map fst (dict_touch String.eqb default_entry d k)).
Proof.
  intros d k. unfold dict_touch.
  destruct (dict_get String.eqb d k) eqn:Hget.
  - induction d as [|[k0 v0] d IH]; [discriminate|].
    cbn [dict_get] in Hget. cbn [map fst].
    destruct (String.eqb_spec k0 k) as [->|_]; [now left|].
    right. apply IH. exact Hget.
  - apply (keys_sset _ d k default_entry k). now left.
Qed.

Section Domains.

Context {W : Type} (handler : call -> M W unit).

(** X18.  [get_state] of a bare domain, on a store whose keys are distinct
    identifiers of two parts: it returns a mapping that holds, for each
    stored entity of that domain and for no other key, the entity's value of
    the attribute, [None] when the attribute is not set and the default in
    place of a falsy value when a default is given.  Nothing is called and
    nothing changes. *)
Theorem get_state_of_a_domain :
  forall (domain attribute : string) (default : pyval) (m : machine W),
    contains dot domain = false ->
    (attribute =? "all")%string = false ->
    Forall (fun kv => two_parts (fst kv)) (_states (snd m)) ->
    NoDup (map fst (_states (snd m))) ->
    let g := _se_get_state domain attribute default m in
    final g = m /\
    calls g = [] /\
    exists mapping,
      outcome g = inr (Many mapping) /\
      forall eid,
        sget mapping eid
        = if in_domain domain eid
          then option_map
                 (fun entry =>
                    Val (or_default default (attr_get entry attribute)))
                 (sget (_states (snd m)) eid)
          else None.
Proof.
  intros domain attribute default m Hdot Hattr Hwf Hnd g.
  destruct (match_domain_finds domain (_states (snd m)) [] Hwf Hnd)
    as (matched & Hm & Hget).
  assert (Hg : g = mkRes
                     (inr (Many
                             (map_values
                                (fun entry =>
                                   Val (or_default default
                                          (attr_get entry attribute)))
                                matched))) m []).
  { unfold g, _se_get_state. rewrite Hdot, Hattr. cbn [negb].
    set (look := bind get_driver _).
    assert (Hlook : look m = ret matched m)
      by (unfold look; rewrite bind_get_driver, Hm; reflexivity).
    rewrite (bind_ok _ _ _ _ _ matched) by (rewrite Hlook; reflexivity).
    rewrite Hlook. cbn [ret outcome final calls app].
    f_equal. f_equal. f_equal.
    unfold or_default, map_values. destruct default; rewrite ?map_map;
      try reflexivity;
      apply map_ext; intros [k entry]; cbn [fst snd obj_truthy];
      destruct (truthy (attr_get entry attribute)); reflexivity. }
  rewrite Hg. cbn [outcome final calls]. repeat split.
  eexists. split; [reflexivity|].
  intros eid. rewrite sget_map_values, Hget.
  destruct (in_domain domain eid); [|reflexivity].
  destruct (sget (_states (snd m)) eid); reflexivity.
Qed.

(** X19.  An identifier with a separator that does not split into two
    parts, such as [a.b.c]: [set_state] raises [ValueError] on it and
    changes nothing, but [get_state] accepts it, returns what the store has
    for it and leaves it as a key of the store.  From then on every
    [get_state] of a bare domain raises [ValueError]. *)
Theorem an_identifier_of_three_parts :
  forall (entity : string) (state : pyval) (attribute_name : string)
         (previous : pyval) (trigger : option bool) (kw : kwargs_t)
         (attribute : string) (default : pyval) (domain attribute' : string)
         (default' : pyval) (m : machine W),
    contains dot entity = true ->
    ~ two_parts entity ->
    contains dot domain = false ->
    let g := _se_get_state entity attribute default m in
    set_state handler entity state attribute_name previous trigger kw m
    = mkRes (inl ValueError) m [] /\
    (exists o, outcome g = inr (One o)) /\
    In entity (map fst (_states (snd (final g)))) /\
    outcome (_se_get_state domain attribute' default' (final g))
    = inl ValueError.
Proof.
  intros entity state attribute_name previous trigger kw attribute default
    domain attribute' default' m Hdot Hbad Hdom g.
  split; [|split; [|split]].
  - unfold set_state. rewrite bind_get_driver.
    destruct (split_on dot entity) as [|a [|b [|c l]]] eqn:Hsplit;
      try reflexivity.
    exfalso. apply Hbad. now exists a, b.
  - unfold g. rewrite (get_state_qualified W entity attribute default m Hdot).
    eexists. reflexivity.
  - unfold g. rewrite (get_state_qualified W entity attribute default m Hdot).
    cbn [final snd _states set_states]. apply keys_touch.
  - unfold g. rewrite (get_state_qualified W entity attribute default m Hdot).
    cbn [final]. unfold _se_get_state. rewrite Hdom.
    set (look := bind get_driver _).
    set (st := (fst m, _)).
    assert (Hlook : look st = raise ValueError st).
    { unfold look, st. rewrite bind_get_driver.
      cbn [snd _states set_states].
      rewrite (match_domain_poisoned domain _ [] entity
                 (keys_touch _ entity) Hbad).
      reflexivity. }
    rewrite (bind_raised _ _ _ _ _ ValueError) by (rewrite Hlook; reflexivity).
    reflexivity.
Qed.

End Domains.

(** ** More scenarios of the test suite *)

(** [test_should_raise_on_timetravel_to_the_past] *)
Lemma travel_to_the_past_raises :
  Fixture.at_minute (-600) <= simulation_time (snd Fixture.hass_driver) /\
  outcome (time_travel_to Fixture.my_callback (Fixture.at_minute (-600))
             Fixture.hass_driver) = inl ValueError /\
  final (time_travel_to Fixture.my_callback (Fixture.at_minute (-600))
           Fixture.hass_driver) = Fixture.hass_driver.
Proof.
  assert (H : Fixture.at_minute (-600)
              <= simulation_time (snd Fixture.hass_driver))
    by (vm_compute; discriminate).
  destruct (time_travel_to_not_forward _ Fixture.my_callback
              (Fixture.at_minute (-600)) Fixture.hass_driver H)
    as (Hf & _ & Ho).
  split; [exact H|split; [exact Ho|exact Hf]].
Defined.

(** [test_should_timetravel_to_new_datetime] *)
Lemma travel_ends_at_the_new_time :
  outcome (time_travel_to Fixture.my_callback (Fixture.at_minute 600)
             Fixture.two_timers) = inr tt /\
  simulation_time
    (snd (final (time_travel_to Fixture.my_callback (Fixture.at_minute 600)
                   Fixture.two_timers)))
  = Fixture.at_minute 600.
Proof.
  assert (H : outcome (time_travel_to Fixture.my_callback
                         (Fixture.at_minute 600) Fixture.two_timers) = inr tt)
    by reflexivity.
  split; [exact H|].
  apply (time_travel_to_lands_on_its_target _ Fixture.my_callback
           (Fixture.at_minute 600) Fixture.two_timers H).
Defined.

(** The two timers keep their handles over the advance to 12:15. *)
Lemma two_timers_keep_their_handles :
  simulation_time (snd Fixture.two_timers) < Fixture.at_minute 15 /\
  map fst (_schedulers
             (snd (final (time_travel_to Fixture.my_callback
                            (Fixture.at_minute 15) Fixture.two_timers))))
  = ["b"; "c"].
Proof.
  assert (H : simulation_time (snd Fixture.two_timers) < Fixture.at_minute 15)
    by reflexivity.
  split; [exact H|].
  destruct (advance_keeps_the_books Fixture.my_callback my_callback_benign
              (Fixture.at_minute 15) Fixture.two_timers H) as [Hkeys _].
  rewrite Hkeys. reflexivity.
Defined.

(** "run_every 90sec starting 12:10, jump to 12:15": four calls. *)
Lemma run_every_90s_to_12_15_fires_four_times :
  timer_calls_to Fixture.cb
    (calls (travel Fixture.my_callback
              [Fixture.at_minute 5; Fixture.at_minute 15]
              (Fixture.with_run_every (Fixture.at_minute 10) 90)))
  = 4%nat.
Proof.
  destruct (run_every_fire_count Fixture.my_callback my_callback_benign
              Fixture.first_handle (Fixture.at_minute 10) 90 Fixture.cb []
              [Fixture.at_minute 5; Fixture.at_minute 15]
              (Fixture.with_run_every (Fixture.at_minute 10) 90))
    as (_ & _ & _ & Hcount).
  - lia.
  - reflexivity.
  - vm_compute; discriminate.
  - vm_compute. repeat split; discriminate.
  - exact (Hcount eq_refl).
Defined.

(** [test_event_scheduled_at_fixed_time_should_only_run_once], minutes
    10, 10, 10, 20: one call. *)
Lemma run_at_12_10_runs_once :
  timer_calls_to Fixture.cb
    (calls (travel Fixture.my_callback
              [Fixture.at_minute 10; Fixture.at_minute 10;
               Fixture.at_minute 10; Fixture.at_minute 20]
              (Fixture.with_run_at (Fixture.at_minute 10))))
  = 1%nat.
Proof.
  destruct (one_shot_fires_once_on_a_journey Fixture.my_callback
              my_callback_benign Fixture.first_handle (Fixture.at_minute 10)
              0 Fixture.cb []
              [Fixture.at_minute 10; Fixture.at_minute 10;
               Fixture.at_minute 10; Fixture.at_minute 20]
              (Fixture.with_run_at (Fixture.at_minute 10)))
    as (_ & _ & _ & Hcount).
  - lia.
  - reflexivity.
  - vm_compute; discriminate.
  - vm_compute. repeat split; discriminate.
  - exact (Hcount eq_refl).
Defined.

(** A canceled schedule of 90 seconds from 12:10 still queues its five
    entries up to 12:16. *)
Lemma canceled_run_every_still_queues :
  1 <= frequency_sec (new_Scheduler (Fixture.at_minute 10) 90 Fixture.cb []) /\
  List.length
    (fires Fixture.BASE_DATE (Fixture.at_minute 16)
       (cancel (new_Scheduler (Fixture.at_minute 10) 90 Fixture.cb [])))
  = 5%nat.
Proof.
  assert (H : 1 <= frequency_sec
                     (new_Scheduler (Fixture.at_minute 10) 90 Fixture.cb []))
    by (vm_compute; discriminate).
  split; [exact H|].
  rewrite (proj1 (cancel_does_not_stop_a_repeating_schedule
                    Fixture.BASE_DATE (Fixture.at_minute 16) _ H)).
  reflexivity.
Defined.

(** ... and on the driver: [run_every], [cancel_timer] of its handle, and
    the advance to 12:16 calls the callback five times. *)
Lemma canceled_run_every_still_fires :
  let m := Fixture.with_run_every (Fixture.at_minute 10) 90 in
  let canceled := _se_cancel_timer (Some Fixture.first_handle) m in
  outcome canceled = inr tt /\
  option_map is_canceled
    (sget (_schedulers (snd (final canceled))) Fixture.first_handle)
  = Some true /\
  timer_calls_to Fixture.cb
    (calls (time_travel_to Fixture.my_callback (Fixture.at_minute 16)
              (final canceled))) = 5%nat.
Proof.
  vm_compute. repeat split.
Qed.

(** [test_should_cancel_timer] *)
Lemma canceled_run_at_does_not_fire :
  timer_calls_to Fixture.cb
    (calls (travel Fixture.my_callback [Fixture.at_minute 20]
              (final (_se_cancel_timer (Some Fixture.first_handle)
                        (Fixture.with_run_at (Fixture.at_minute 10))))))
  = O.
Proof.
  destruct (canceled_one_shot_never_fires Fixture.my_callback
              my_callback_benign Fixture.first_handle
              (new_Scheduler (Fixture.at_minute 10) 0 Fixture.cb [])
              [Fixture.at_minute 20]
              (Fixture.with_run_at (Fixture.at_minute 10)))
    as (_ & _ & _ & Hcount).
  - reflexivity.
  - vm_compute; reflexivity.
  - vm_compute. repeat split; discriminate.
  - exact (Hcount eq_refl).
Defined.

(** [run_daily] on the fresh driver stores a record of period one day. *)
Lemma run_daily_stores_a_daily_record :
  update_states (snd Fixture.hass_driver) = true /\
  sget (_schedulers
          (snd (final (_se_run_daily Fixture.uuid4_draw Fixture.cb
                         (Fixture.at_minute 10) [] Fixture.hass_driver))))
    Fixture.first_handle
  = Some (new_Scheduler (Fixture.at_minute 10) 86400 Fixture.cb []).
Proof.
  split; [reflexivity|].
  destruct (registrations_store_their_record Fixture.uuid4_draw
              Fixture.hass_driver Fixture.cb (Fixture.at_minute 10) 0 0 []
              eq_refl) as (_ & _ & _ & (_ & _ & Hget & _) & _).
  exact Hget.
Defined.


(** ... and is not called when that happens inside the setup block. *)
Lemma switching_on_in_setup_is_silent :
  let r := with_setup
             (set_state Fixture.my_callback "light.x" (PStr "on") "state"
                PNone None []) Fixture.with_listener in
  split_on dot "light.x" = ["light"; "x"] /\
  calls r = [] /\
  state_entry (snd (final r)) "light.x" = [("state", PStr "on")].
Proof.
  destruct (set_state_in_setup_is_silent Fixture.my_callback "light.x"
              "light" "x" (PStr "on") "state" PNone [] Fixture.with_listener
              eq_refl) as (_ & Hcalls & _ & Hentry).
  split; [reflexivity|split; [exact Hcalls|]]. rewrite Hentry. reflexivity.
Defined.

(** What was set is read. *)
Lemma the_light_reads_on :
  split_on dot "light.x" = ["light"; "x"] /\
  outcome (_se_get_state "state" "state" PNone Fixture.hass_driver)
  = inr (Many []) /\
  outcome
    (_se_get_state "light.x" "state" PNone
       (final (set_state Fixture.my_callback "light.x" (PStr "on") "state"
                 PNone None [] Fixture.with_listener)))
  = inr (One (Val (PStr "on"))).
Proof.
  destruct (get_state_after_set_state Fixture.my_callback my_callback_benign
              "light.x" "light" "x" (PStr "on") "state" None []
              Fixture.with_listener eq_refl eq_refl) as (Hget & _).
  split; [reflexivity|split; [reflexivity|exact Hget]].
Defined.

(** An entity that was never set reads as the default given. *)
Lemma an_unknown_entity_reads_as_the_default :
  contains dot "light.z" = true /\
  outcome (_se_get_state "light.z" "state" (PStr "off") Fixture.light_on)
  = inr (One (Val (PStr "off"))) /\
  outcome (_se_get_state "light.x" "state" (PStr "off") Fixture.light_on)
  = inr (One (Val (PStr "on"))).
Proof.
  destruct (get_state_of_an_entity _ "light.z" "state" (PStr "off")
              Fixture.light_on eq_refl eq_refl) as (Hz & _).
  destruct (get_state_of_an_entity _ "light.x" "state" (PStr "off")
              Fixture.light_on eq_refl eq_refl) as (Hx & _).
  split; [reflexivity|split; [exact Hz|exact Hx]].
Defined.

(** A listener of the domain [light] hears of [light.x]. *)
Lemma a_domain_listener_hears_of_the_entity :
  In (CallSpy Fixture.cb1 "light.x" (Some "state") (Val PNone)
        (Val (PStr "on")) [])
    (calls (set_state Fixture.my_callback "light.x" (PStr "on") "state"
              PNone None []
              (final (_se_listen_state Fixture.uuid4_draw Fixture.cb1
                        (Some "light") None None None []
                        Fixture.with_listener)))).
Proof.
  apply (a_registered_listener_is_called Fixture.my_callback
           Fixture.uuid4_draw my_callback_benign Fixture.cb1 "light" None
           None None [] "light.x" "light" "x" (PStr "on") "state" PNone None
           [] Fixture.with_listener eq_refl (or_intror eq_refl) eq_refl
           eq_refl eq_refl).
Defined.


(** The keywords of [turn_on] reach the parameters of [set_state]:
    [attribute_name="brightness"] leaves the state of the light alone,
    [previous="on"] makes the call return before it stores anything,
    [trigger=False] keeps the listener out, and a keyword [state] collides
    with the positional argument. *)
Lemma turn_on_binds_the_keywords_of_set_state :
  let turn_on kw := _se_turn_on Fixture.my_callback "light.x" kw
                      Fixture.with_listener in
  state_entry (snd (final (turn_on [("attribute_name", PStr "brightness")])))
    "light.x"
  = [("state", PNone); ("brightness", PStr "on")] /\
  calls (turn_on [("attribute_name", PStr "brightness")]) = [] /\
  state_entry (snd (final (turn_on [("previous", PStr "on")]))) "light.x"
  = [("state", PNone)] /\
  calls (turn_on [("previous", PStr "on")]) = [] /\
  state_entry (snd (final (turn_on [("trigger", PBool false)]))) "light.x"
  = [("state", PStr "on")] /\
  calls (turn_on [("trigger", PBool false)]) = [] /\
  calls (turn_on [("transition", PInt 2)])
  = [CallSpy Fixture.cb "light.x" (Some "state") (Val PNone)
       (Val (PStr "on")) [("transition", PInt 2)]] /\
  turn_on [("state", PStr "off")]
  = mkRes (inl (Raised "TypeError")) Fixture.with_listener [].
Proof.
  vm_compute. repeat split.
Qed.

(** A listener registered with no entity does not hear of [light.x]. *)
Lemma a_listener_of_nothing_hears_nothing :
  calls (set_state Fixture.my_callback "light.x" (PStr "on") "state" PNone
           None []
           (final (_se_listen_state Fixture.uuid4_draw Fixture.cb1 None None
                     None None [] Fixture.hass_driver)))
  = [].
Proof.
  rewrite (a_listener_elsewhere_is_not_called Fixture.my_callback
             Fixture.uuid4_draw my_callback_benign Fixture.cb1 None None None
             None [] "light.x" "light" "x" (PStr "on") "state" PNone None []
             Fixture.hass_driver eq_refl);
    [reflexivity|discriminate|discriminate].
Defined.

(** [get_state("light")] with the light on. *)
Lemma the_domain_light_holds_the_light :
  contains dot "light" = false /\
  outcome (_se_get_state "light" "state" PNone Fixture.light_on)
  = inr (Many [("light.x", Val (PStr "on"))]).
Proof.
  split; [reflexivity|].
  destruct (get_state_of_a_domain (W := Fixture.world) "light" "state" PNone
              Fixture.light_on eq_refl eq_refl) as (_ & _ & mapping & Ho & _).
  - repeat constructor. now exists "light", "x".
  - repeat constructor. intros [].
  - reflexivity.
Defined.

(** [get_state("a.b.c")], then [get_state("light")] raises. *)
Lemma a_read_of_three_parts_breaks_the_domain_queries :
  contains dot "a.b.c" = true /\
  outcome
    (_se_get_state "light" "state" PNone
       (final (_se_get_state "a.b.c" "state" PNone Fixture.light_on)))
  = inl ValueError.
Proof.
  split; [reflexivity|].
  destruct (an_identifier_of_three_parts Fixture.my_callback "a.b.c"
              (PStr "on") "state" PNone None [] "state" PNone "light" "state"
              PNone Fixture.light_on eq_refl) as (_ & _ & _ & H).
  - intros (d & o & H). discriminate.
  - reflexivity.
  - exact H.
Defined.
